(** * upcode: the structural editor component (src/components/editor.js)

    A shallow embedding of the [Editor] component: the Immutable.js values it
    stores (trees and paths), the babel-types builders and predicates it
    calls, and the component's own methods (history, insert, move, undo,
    redo, clipboard export), followed by the properties of the
    specification that concern them.

    The two libraries are modelled as far as the component uses them:
    Immutable.js as of its 3.8 line ([getIn], [updateIn], [List] indices
    that wrap and clamp, [Immutable.is]), babel-types as of Babel 6 (a node
    is a plain object with a [type] property).  An exception is a result
    [None]; what the handlers do to the outside (generator, change
    callback, clipboard) is a trace of effects in the component state. *)

From Stdlib Require Import List String Ascii ZArith Bool Lia DecimalString.
Import ListNotations.
Local Open Scope string_scope.
Local Open Scope Z_scope.
Local Open Scope list_scope.
Set Warnings "-register-all,-notation-for-abbreviation".

(** ** Plain JavaScript values and Immutable.js values

    JavaScript numbers are restricted to the integers (indices and path
    lengths are all the editor computes with); the one place where a
    non-integer matters, [parseFloat(value).toString()], is a parameter of
    the development.  [NaN] and [undefined] can end up as steps of a path
    ([parseInt] of a step that is not a number, [List.set] beyond the end),
    so keys have them.  [setState] is taken to run its updater at once: the
    component handles one event at a time. *)

(** A step of a key path, and a key of an Immutable [Map]. *)
Inductive key : Type :=
| KStr (s : string)
| KNum (n : Z)
| KNaN
| KUndef.

Definition path : Type := list key.

(** Plain values: what [toJS] returns and what babel-types works on. *)
Inductive js : Type :=
| JUndef
| JNull
| JBool (b : bool)
| JNum (n : Z)
| JStr (s : string)
| JObj (fields : list (string * js))
| JArr (items : list js).

(** Immutable.js values: what [Immutable.fromJS] returns.  A [Map] is kept
    as an association list without repeated keys, in insertion order. *)
Inductive imm : Type :=
| IUndef
| INull
| IBool (b : bool)
| INum (n : Z)
| IStr (s : string)
| IMap (entries : list (key * imm))
| IList (items : list imm).

(** What [collection.get(key, NOT_SET)] hands back. *)
Inductive slot : Type :=
| NotSet
| Val (v : imm).

Module Immutable.

Definition key_eqb (a b : key) : bool :=
  match a, b with
  | KStr s, KStr t => String.eqb s t
  | KNum n, KNum m => Z.eqb n m
  | KNaN, KNaN => true
  | KUndef, KUndef => true
  | _, _ => false
  end.

(** [Immutable.is] on two paths (Lists of strings and numbers). *)
Fixpoint path_is (p q : path) : bool :=
  match p, q with
  | [], [] => true
  | a :: p', b :: q' => key_eqb a b && path_is p' q'
  | _, _ => false
  end.

(** JavaScript truthiness. *)
Definition truthy (v : imm) : bool :=
  match v with
  | IUndef | INull => false
  | IBool b => b
  | INum n => negb (n =? 0)
  | IStr s => negb (String.eqb s "")
  | IMap _ | IList _ => true
  end.

Definition js_truthy (v : js) : bool :=
  match v with
  | JUndef | JNull => false
  | JBool b => b
  | JNum n => negb (n =? 0)
  | JStr s => negb (String.eqb s "")
  | JObj _ | JArr _ => true
  end.

(** *** Maps *)

Fixpoint map_get (k : key) (m : list (key * imm)) : slot :=
  match m with
  | [] => NotSet
  | (k', v) :: m' => if key_eqb k k' then Val v else map_get k m'
  end.

Fixpoint map_set (k : key) (v : imm) (m : list (key * imm)) : list (key * imm) :=
  match m with
  | [] => [(k, v)]
  | (k', v') :: m' =>
      if key_eqb k k' then (k, v) :: m' else (k', v') :: map_set k v m'
  end.

Fixpoint map_remove (k : key) (m : list (key * imm)) : list (key * imm) :=
  match m with
  | [] => []
  | (k', v') :: m' =>
      if key_eqb k k' then map_remove k m' else (k', v') :: map_remove k m'
  end.

(** *** Lists *)

Definition size (l : list imm) : Z := Z.of_nat (List.length l).

Definition digit_of (c : ascii) : option Z :=
  let n := Z.of_nat (nat_of_ascii c) in
  if (48 <=? n) && (n <=? 57) then Some (n - 48) else None.

Fixpoint digits_value (acc : Z) (s : string) : option Z :=
  match s with
  | EmptyString => Some acc
  | String c s' =>
      match digit_of c with
      | Some d => digits_value (10 * acc + d) s'
      | None => None
      end
  end.

(** [Number(s)] for the strings that denote a natural number in decimal;
    [None] stands for [NaN]. *)
Definition number_of_string (s : string) : option Z :=
  match s with
  | EmptyString => None
  | _ => digits_value 0 s
  end.

(** A string that is the canonical decimal form of an unsigned 32-bit
    integer other than 4294967295: the strings [wrapIndex] accepts. *)
Definition canonical_index (s : string) : option Z :=
  match s with
  | EmptyString => None
  | String c s' =>
      match number_of_string s with
      | Some n =>
          if (negb (Ascii.eqb c "0") || String.eqb s' "") && (n <? 4294967295)
          then Some n else None
      | None => None
      end
  end.

(** [wrapIndex(list, index)]; [None] stands for [NaN]. *)
Definition wrapIndex (l : list imm) (k : key) : option Z :=
  match k with
  | KNum n => Some (if n <? 0 then size l + n else n)
  | KStr s => canonical_index s
  | KNaN | KUndef => None
  end.

Definition in_range (l : list imm) (i : Z) : bool :=
  (0 <=? i) && (i <? size l).

Definition list_get (k : key) (l : list imm) : slot :=
  match wrapIndex l k with
  | Some i =>
      if in_range l i
      then match nth_error l (Z.to_nat i) with Some v => Val v | None => NotSet end
      else NotSet
  | None => NotSet
  end.

Fixpoint replace_nth (n : nat) (v : imm) (l : list imm) : list imm :=
  match n, l with
  | _, [] => []
  | O, _ :: l' => v :: l'
  | S n', x :: l' => x :: replace_nth n' v l'
  end.

(** [list.set(index, value)]: past the end the list is extended with
    [undefined] holes, before the start it grows at the front. *)
Definition list_set (k : key) (v : imm) (l : list imm) : list imm :=
  match wrapIndex l k with
  | None => l
  | Some i =>
      if i <? 0 then v :: repeat IUndef (Z.to_nat (- i - 1)) ++ l
      else if i <? size l then replace_nth (Z.to_nat i) v l
      else l ++ repeat IUndef (Z.to_nat (i - size l)) ++ [v]
  end.

Fixpoint remove_nth (n : nat) (l : list imm) : list imm :=
  match n, l with
  | _, [] => []
  | O, _ :: l' => l'
  | S n', x :: l' => x :: remove_nth n' l'
  end.

(** [list.delete(index)]: nothing happens unless [list.has(index)]. *)
Definition list_delete (k : key) (l : list imm) : list imm :=
  match wrapIndex l k with
  | Some i => if in_range l i then remove_nth (Z.to_nat i) l else l
  | None => l
  end.

(** [resolveBegin(index, size)] of [splice]: a negative index counts from
    the end, and the result is clamped to [0 .. size]. *)
Definition resolveBegin (l : list imm) (i : Z) : Z :=
  if i <? 0 then Z.max 0 (size l + i) else Z.min (size l) i.

(** [list.insert(index, value)], that is [splice(index, 0, value)].  A string
    index is coerced by the comparisons of [resolveBegin], [undefined] is
    the default 0; an index that is [NaN] (or a string that is not a
    number) is left out of the model ([None]). *)
Definition list_insert (k : key) (v : imm) (l : list imm) : option (list imm) :=
  let at_ (i : Z) :=
    let b := Z.to_nat (resolveBegin l i) in
    firstn b l ++ v :: skipn b l in
  match k with
  | KNum n => Some (at_ n)
  | KStr s => option_map at_ (number_of_string s)
  | KUndef => Some (at_ 0)
  | KNaN => None
  end.

(** *** Collections: [get], [set], [remove] by key *)

Definition is_collection (v : imm) : bool :=
  match v with
  | IMap _ | IList _ => true
  | _ => false
  end.

Definition get (k : key) (v : imm) : slot :=
  match v with
  | IMap m => map_get k m
  | IList l => list_get k l
  | _ => NotSet
  end.

Definition set (k : key) (x : imm) (v : imm) : imm :=
  match v with
  | IMap m => IMap (map_set k x m)
  | IList l => IList (list_set k x l)
  | _ => v
  end.

Definition remove (k : key) (v : imm) : imm :=
  match v with
  | IMap m => IMap (map_remove k m)
  | IList l => IList (list_delete k l)
  | _ => v
  end.

Definition slot_value (s : slot) : imm :=
  match s with
  | NotSet => IUndef
  | Val v => v
  end.

(** [getIn(keyPath)]: stops with [undefined] at the first missing key or at
    a value that is not a collection. *)
Fixpoint getIn_slot (v : imm) (p : path) : slot :=
  match p with
  | [] => Val v
  | k :: p' =>
      match get k v with
      | Val v' => getIn_slot v' p'
      | NotSet => NotSet
      end
  end.

Definition getIn (v : imm) (p : path) : imm := slot_value (getIn_slot v p).

(** [updateInDeepMap(existing, keyPath, undefined, updater)].  The outer
    [option] is [None] when the call throws: the ['invalid keyPath']
    invariant (the path continues below a value that is not a collection) or
    an exception of the updater.  An updater returns [NotSet] to delete. *)
Fixpoint updateInDeep (existing : slot) (p : path)
    (updater : imm -> option slot) : option slot :=
  match p with
  | [] =>
      match updater (slot_value existing) with
      | None => None
      | Some (Val IUndef) =>
          Some (match existing with NotSet => NotSet | Val _ => Val IUndef end)
      | Some r => Some r
      end
  | k :: p' =>
      match existing with
      | NotSet =>
          match updateInDeep NotSet p' updater with
          | None => None
          | Some NotSet => Some NotSet
          | Some (Val x) => Some (Val (IMap (map_set k x [])))
          end
      | Val v =>
          if is_collection v then
            match updateInDeep (get k v) p' updater with
            | None => None
            | Some NotSet =>
                Some (Val (match get k v with
                           | NotSet => v
                           | Val _ => remove k v
                           end))
            | Some (Val x) => Some (Val (set k x v))
            end
          else None
      end
  end.

(** [collection.updateIn(keyPath, updater)] on a collection. *)
Definition updateIn (v : imm) (p : path) (updater : imm -> option slot)
    : option imm :=
  match updateInDeep (Val v) p updater with
  | Some (Val v') => Some v'
  | Some NotSet => Some IUndef
  | None => None
  end.

(** [collection.deleteIn(keyPath)]. *)
Definition deleteIn (v : imm) (p : path) : option imm :=
  updateIn v p (fun _ => Some NotSet).

(** [collection.setIn(keyPath, value)]. *)
Definition setIn (v : imm) (p : path) (x : imm) : option imm :=
  updateIn v p (fun _ => Some (Val x)).

(** *** Conversions *)

Fixpoint fromJS (v : js) : imm :=
  match v with
  | JUndef => IUndef
  | JNull => INull
  | JBool b => IBool b
  | JNum n => INum n
  | JStr s => IStr s
  | JObj fields =>
      IMap ((fix go (fs : list (string * js)) : list (key * imm) :=
               match fs with
               | [] => []
               | (k, x) :: fs' => (KStr k, fromJS x) :: go fs'
               end) fields)
  | JArr items =>
      IList ((fix go (xs : list js) : list imm :=
                match xs with
                | [] => []
                | x :: xs' => fromJS x :: go xs'
                end) items)
  end.

Definition key_to_string (k : key) : string :=
  match k with
  | KStr s => s
  | KNum n => NilZero.string_of_int (Z.to_int n)
  | KNaN => "NaN"
  | KUndef => "undefined"
  end.

Fixpoint toJS (v : imm) : js :=
  match v with
  | IUndef => JUndef
  | INull => JNull
  | IBool b => JBool b
  | INum n => JNum n
  | IStr s => JStr s
  | IMap entries =>
      JObj ((fix go (es : list (key * imm)) : list (string * js) :=
               match es with
               | [] => []
               | (k, x) :: es' => (key_to_string k, toJS x) :: go es'
               end) entries)
  | IList items =>
      JArr ((fix go (xs : list imm) : list js :=
               match xs with
               | [] => []
               | x :: xs' => toJS x :: go xs'
               end) items)
  end.

(** *** Value equality

    [Immutable.is(a, b)] (a reserved word here, hence [imm_is]): primitives by value, Lists element by element in
    order, Maps entry by entry whatever the insertion order. *)
Fixpoint imm_is (a b : imm) {struct a} : bool :=
  match a, b with
  | IUndef, IUndef => true
  | INull, INull => true
  | IBool x, IBool y => Bool.eqb x y
  | INum x, INum y => Z.eqb x y
  | IStr x, IStr y => String.eqb x y
  | IList xs, IList ys =>
      (fix go (xs : list imm) (ys : list imm) : bool :=
         match xs, ys with
         | [], [] => true
         | x :: xs', y :: ys' => imm_is x y && go xs' ys'
         | _, _ => false
         end) xs ys
  | IMap xs, IMap ys =>
      Nat.eqb (List.length xs) (List.length ys) &&
      (fix go (xs : list (key * imm)) : bool :=
         match xs with
         | [] => true
         | (k, x) :: xs' =>
             match map_get k ys with
             | Val y => imm_is x y && go xs'
             | NotSet => false
             end
         end) xs
  | _, _ => false
  end.

(** *** Methods, as called on a value that may not have them

    [None] is a [TypeError]: the receiver is [undefined], [null] or a
    primitive, which has no such method. *)

Definition call_getIn (recv : imm) (p : path) : option imm :=
  if is_collection recv then Some (getIn recv p) else None.

Definition call_toJS (recv : imm) : option js :=
  if is_collection recv then Some (toJS recv) else None.

Definition call_updateIn (recv : imm) (p : path) (updater : imm -> option slot)
    : option imm :=
  if is_collection recv then updateIn recv p updater else None.

Definition call_deleteIn (recv : imm) (p : path) : option imm :=
  if is_collection recv then deleteIn recv p else None.

Definition call_setIn (recv : imm) (p : path) (x : imm) : option imm :=
  if is_collection recv then setIn recv p x else None.

(** [collection.insert(index, value)] inside an updater: only a List has it. *)
Definition call_insert (k : key) (x : imm) (recv : imm) : option slot :=
  match recv with
  | IList l => option_map (fun l' => Val (IList l')) (list_insert k x l)
  | _ => None
  end.

(** [collection.delete(key)] inside an updater. *)
Definition call_delete (k : key) (recv : imm) : option slot :=
  if is_collection recv then Some (Val (remove k recv)) else None.

(** [value.size]: [None] when reading the property throws, [KUndef] when
    the value has no such property. *)
Definition size_prop (v : imm) : option key :=
  match v with
  | IList l => Some (KNum (size l))
  | IMap m => Some (KNum (Z.of_nat (List.length m)))
  | IUndef | INull => None
  | _ => Some KUndef
  end.

(** What plain property access and babel-types see of an Immutable value:
    a Map or List is an object whose only public data property is [size]
    (its entries are reached through [get], not through properties), so
    [node.type] and [node.value] are [undefined] on it. *)
Definition raw (v : imm) : js :=
  match v with
  | IUndef => JUndef
  | INull => JNull
  | IBool b => JBool b
  | INum n => JNum n
  | IStr s => JStr s
  | IMap m => JObj [("size"%string, JNum (Z.of_nat (List.length m)))]
  | IList l => JObj [("size"%string, JNum (size l))]
  end.

(** *** Paths: Lists of keys *)

Definition path_size (p : path) : Z := Z.of_nat (List.length p).

(** [p.last()] *)
Definition path_last (p : path) : option key := List.last (map Some p) None.

Definition last_is (s : string) (p : path) : bool :=
  match path_last p with
  | Some (KStr t) => String.eqb s t
  | _ => false
  end.

(** [p.get(i)] for an index that is a path length (never negative). *)
Definition path_get (i : Z) (p : path) : option key :=
  if i <? 0 then None else nth_error p (Z.to_nat i).

(** [p.slice(0, n)], where a negative [n] counts from the end. *)
Definition slice_to (n : Z) (p : path) : path :=
  firstn (Z.to_nat (if n <? 0 then Z.max 0 (path_size p + n) else n)) p.

(** [p.slice(n)] for a non-negative [n]. *)
Definition slice_from (n : Z) (p : path) : path := skipn (Z.to_nat n) p.

(** [p.butLast()] *)
Definition butLast (p : path) : path := removelast p.

(** [p.push(k1, ..., kn)] is [p ++ [k1; ...; kn]]. *)
Definition push (p : path) (ks : list key) : path := p ++ ks.

(** [p.findLastIndex(pred)], [-1] when no key satisfies [pred]. *)
Fixpoint findLastIndex_from (i : Z) (pred : key -> bool) (p : path) : Z :=
  match p with
  | [] => -1
  | k :: p' =>
      let r := findLastIndex_from (i + 1) pred p' in
      if 0 <=? r then r else if pred k then i else -1
  end.

Definition findLastIndex (pred : key -> bool) (p : path) : Z :=
  findLastIndex_from 0 pred p.

(** [p.update(i, () => k)], that is [p.set(i, k)]: beyond the end the path is
    padded with [undefined]. *)
Definition path_set (i : Z) (k : key) (p : path) : path :=
  if i <? path_size p
  then firstn (Z.to_nat i) p ++ k :: skipn (S (Z.to_nat i)) p
  else p ++ repeat KUndef (Z.to_nat (i - path_size p)) ++ [k].

End Immutable.

(** ** babel-types: the builders and predicates the editor imports

    The builders' field validators (which throw on a child of the wrong
    kind) are not part of the model. *)
Module Babel.

Fixpoint field (name : string) (fs : list (string * js)) : js :=
  match fs with
  | [] => JUndef
  | (k, v) :: fs' => if String.eqb name k then v else field name fs'
  end.

(** [node[name]] on a value that is not [undefined] or [null]. *)
Definition prop (name : string) (node : js) : js :=
  match node with
  | JObj fs => field name fs
  | _ => JUndef
  end.

(** [t.is(type, node)]: [if (!node) return false] and then [node.type]
    against [type]; all the types used here are node types, not aliases. *)
Definition is_node (type : string) (node : js) : bool :=
  Immutable.js_truthy node &&
  match prop "type" node with
  | JStr s => String.eqb s type
  | _ => false
  end.

Definition isArrayExpression := is_node "ArrayExpression".
Definition isIdentifier := is_node "Identifier".
Definition isNullLiteral := is_node "NullLiteral".
Definition isNumericLiteral := is_node "NumericLiteral".
Definition isObjectExpression := is_node "ObjectExpression".
Definition isObjectProperty := is_node "ObjectProperty".
Definition isStringLiteral := is_node "StringLiteral".

Definition nullLiteral : js := JObj [("type", JStr "NullLiteral")].

Definition stringLiteral (value : string) : js :=
  JObj [("type", JStr "StringLiteral"); ("value", JStr value)].

Definition numericLiteral (value : Z) : js :=
  JObj [("type", JStr "NumericLiteral"); ("value", JNum value)].

Definition arrayExpression (elements : list js) : js :=
  JObj [("type", JStr "ArrayExpression"); ("elements", JArr elements)].

Definition objectExpression (properties : list js) : js :=
  JObj [("type", JStr "ObjectExpression"); ("properties", JArr properties)].

Definition objectProperty (key value : js) : js :=
  JObj [("type", JStr "ObjectProperty"); ("key", key); ("value", value);
        ("computed", JBool false); ("shorthand", JBool false);
        ("decorators", JNull)].

End Babel.

(** ** JavaScript coercions the editor relies on *)
Module Js.

Definition is_space (c : ascii) : bool :=
  let n := nat_of_ascii c in
  Nat.eqb n 32 || (Nat.leb 9 n && Nat.leb n 13).

Fixpoint skip_spaces (s : string) : string :=
  match s with
  | String c s' => if is_space c then skip_spaces s' else s
  | EmptyString => s
  end.

Fixpoint digit_prefix (acc : option Z) (s : string) : option Z :=
  match s with
  | String c s' =>
      match Immutable.digit_of c with
      | Some d =>
          digit_prefix
            (Some (10 * (match acc with Some a => a | None => 0 end) + d)) s'
      | None => acc
      end
  | EmptyString => acc
  end.

(** [parseInt(x, 10)]; [None] is [NaN]. *)
Definition parseInt (k : key) : option Z :=
  match k with
  | KNum n => Some n
  | KStr s =>
      match skip_spaces s with
      | String "-" s' => option_map Z.opp (digit_prefix None s')
      | String "+" s' => digit_prefix None s'
      | s' => digit_prefix None s'
      end
  | KNaN | KUndef => None
  end.

(** A number that may be [NaN], as a key. *)
Definition number (n : option Z) : key :=
  match n with
  | Some z => KNum z
  | None => KNaN
  end.

(** [x || 0] for the result [x] of [path.get(i)]. *)
Definition or0 (x : option key) : key :=
  match x with
  | Some (KNum n) => KNum n
  | Some (KStr s) => if String.eqb s "" then KNum 0 else KStr s
  | Some KNaN | Some KUndef | None => KNum 0
  end.

(** [x + 1 || 0] for the result [x] of [path.get(i)]: a string is
    concatenated with ["1"], [undefined + 1] is [NaN]. *)
Definition plus1_or0 (x : option key) : key :=
  match x with
  | Some (KNum n) => KNum (n + 1)
  | Some (KStr s) => KStr (String.append s "1")
  | Some KNaN | Some KUndef | None => KNum 0
  end.

End Js.

(** ** The Editor component *)

Notation "x <- e ;; k" :=
  (match e with Some x => k | None => None end)
  (at level 61, e at next level, right associativity, only parsing).

Inductive VerticalDirection : Type := UP | DOWN.

(** What an event handler does to the outside world, in order. *)
Inductive effect : Type :=
| Generate (node : js)                (* generate(node) of babel-generator *)
| OnChange (code : string)            (* this.props.onChange(code) *)
| SetData (format data : string)      (* event.clipboardData.setData *)
| PreventDefault.                     (* event.preventDefault() *)

Record EditorState : Type := mkEditorState {
  ast : imm;
  selected : path
}.

(** The object an update function returns: each key may be missing. *)
Record update : Type := mkUpdate {
  new_ast : option imm;
  new_selected : option path
}.

(** An update function returns an [update], or [undefined] ([Some None]),
    or throws ([None]). *)
Definition updateFn : Type := imm -> path -> option (option update).

(** [this.state], [this.contextValue] (its [ast] and [selected] only) and
    the trace of effects so far, oldest first. *)
Record editor : Type := mkEditor {
  future : list EditorState;
  history : list EditorState;
  showKeymap : bool;
  contextValue : EditorState;
  effects : list effect
}.

Module Editor.
Import Immutable Babel.

Definition MAX_HISTORY_LENGTH : nat := 100.

Definition isEditable (node : js) : bool :=
  isStringLiteral node || isNumericLiteral node || isIdentifier node.

Section Component.

(** External services: [generate(node).code], the composition
    [value => parseFloat(value).toString()], and the navigator. *)
Variable generate : js -> string.
Variable parseFloat_toString : imm -> string.
Variable navigate : VerticalDirection -> imm -> path -> path.

Definition getCurrentEditorState (e : editor) : option EditorState :=
  hd_error (history e).

(** [getSelectedNode()]; [None] when it throws. *)
Definition getSelectedNode (e : editor) : option js :=
  s <- getCurrentEditorState e ;;
  node <- call_getIn (ast s) (selected s) ;;
  if truthy node then call_toJS node else Some (toJS node).

Definition is_collection_key (k : key) : bool :=
  match k with
  | KStr s => String.eqb s "elements" || String.eqb s "properties"
  | _ => false
  end.

Definition getClosestCollectionPath (ast : imm) (selected : path)
    : option path :=
  node <- call_getIn ast selected ;;
  selectedNode <- call_toJS node ;;
  if isObjectExpression selectedNode then Some (push selected [KStr "properties"])
  else if isArrayExpression selectedNode then Some (push selected [KStr "elements"])
  else
    let index := findLastIndex is_collection_key selected in
    Some (slice_to (index + 1) selected).

(** [{ ast, selected, ...result }] *)
Definition merge (ast : imm) (selected : path) (result : option update)
    : EditorState :=
  match result with
  | None => mkEditorState ast selected
  | Some u =>
      mkEditorState
        (match new_ast u with Some a => a | None => ast end)
        (match new_selected u with Some s => s | None => selected end)
  end.

Definition updateEditorStateContext (newEditorState : option EditorState)
    (ctx : EditorState) : EditorState :=
  match newEditorState with
  | Some s => s
  | None => ctx
  end.

(** Lines 221-223 of [addToHistory]: the selection a commit works with is
    the empty path when the current one is falsy in the tree (in particular
    when it does not resolve) and does not end in the ["end"] sentinel. *)
Definition effective_selection (head : EditorState) : path :=
  if negb (last_is "end" (selected head))
     && negb (truthy (getIn (ast head) (selected head)))
  then [] else selected head.

(** Lines 219-231 of [addToHistory]: the tree and selection handed to the
    update function. *)
Definition prepare (head : EditorState) : option EditorState :=
  if is_collection (ast head) then
    let selected1 := effective_selection head in
    let selectedNode := getIn (ast head) selected1 in
    ast1 <- (if truthy selectedNode then
               node <- call_toJS selectedNode ;;
               if isNumericLiteral node
               then call_updateIn (ast head) (push selected1 [KStr "value"])
                      (fun value => Some (Val (IStr (parseFloat_toString value))))
               else Some (ast head)
             else Some (ast head)) ;;
    Some (mkEditorState ast1 selected1)
  else None.

Definition addToHistory (f : updateFn) (e : editor) : option editor :=
  head <- hd_error (history e) ;;
  start <- prepare head ;;
  result <- f (ast start) (selected start) ;;
  let newState := merge (ast start) (selected start) result in
  let isASTPristine := imm_is (ast start) (ast newState) in
  notified <- (if truthy (ast newState) && negb isASTPristine then
                 node <- call_toJS (ast newState) ;;
                 Some [Generate node; OnChange (generate node)]
               else Some []) ;;
  if path_is (selected start) (selected newState) && isASTPristine
  then Some (mkEditor (future e) (history e) (showKeymap e)
               newState (effects e ++ notified))
  else Some (mkEditor []
               (firstn MAX_HISTORY_LENGTH (newState :: history e))
               (showKeymap e) newState (effects e ++ notified)).

(** Lines 267-270 of [insert]: the index at which the node goes. *)
Definition insert_index (selected collectionPath : path) : key :=
  if last_is "end" selected then KNum (path_size collectionPath)
  else Js.plus1_or0 (path_get (path_size collectionPath) selected).

Definition insert_fn (node : js) : updateFn := fun ast selected =>
  let immutableNode := fromJS node in
  collectionPath <- getClosestCollectionPath ast
                      (if last_is "end" selected then slice_to (-3) selected
                       else selected) ;;
  let itemIndex := insert_index selected collectionPath in
  parent <- call_getIn ast (butLast collectionPath) ;;
  collectionNode <- call_toJS parent ;;
  let isArray := isArrayExpression collectionNode in
  let isObject := isObjectExpression collectionNode in
  if negb isArray && negb isObject then Some None
  else
    newAST <- call_updateIn ast collectionPath
                (call_insert itemIndex
                   (if isArray then immutableNode
                    else fromJS (objectProperty (stringLiteral "") node))) ;;
    let newSelected := push collectionPath [itemIndex] in
    Some (Some (mkUpdate (Some newAST)
                  (Some (if isArray then newSelected
                         else push newSelected [KStr "key"])))).

Definition insert (node : js) : editor -> option editor :=
  addToHistory (insert_fn node).

(** Lines 361-379 of [moveSelected]: the selected property goes into the
    object that is the value of its neighbour. *)
Definition moveIntoNested (isMoveUp : bool) (ast : imm) (selected : path)
    (collectionPath : path) (itemIndex : key) (item : imm)
    (newItemIndex : option Z) (newItemPath : path) : option (option update) :=
  let targetObjectPath := push newItemPath [KStr "value"; KStr "properties"] in
  targetIndex <- (if isMoveUp
                  then target <- call_getIn ast targetObjectPath ;;
                       size_prop target
                  else Some (KNum 0)) ;;
  ast1 <- call_updateIn ast targetObjectPath (call_insert targetIndex item) ;;
  ast2 <- call_updateIn ast1 collectionPath (call_delete itemIndex) ;;
  Some (Some (mkUpdate (Some ast2)
    (Some (push collectionPath
             [Js.number (option_map (fun n => n + (if isMoveUp then 0 else -1))
                           newItemIndex);
              KStr "value"; KStr "properties"; targetIndex]
           ++ slice_from (path_size collectionPath + 1) selected)))).

(** Lines 396-413 of [moveSelected]: the selected property leaves its
    object and goes into the enclosing one, next to the property that held
    it. *)
Definition moveToParent (isMoveUp : bool) (ast : imm) (selected : path)
    (collectionPath : path) (itemIndex : key) (itemPath : path) (item : imm)
    (collectionIndexPath parentCollectionPath : path)
    : option (option update) :=
  let collectionIndex :=
    if last_is "end" collectionIndexPath
    then KNum (path_size parentCollectionPath)
    else Js.or0 (path_get (path_size parentCollectionPath) selected) in
  let newItemIndex :=
    Js.number (option_map (fun n => n + (if isMoveUp then 0 else 1))
                 (Js.parseInt collectionIndex)) in
  ast1 <- call_updateIn ast collectionPath (call_delete itemIndex) ;;
  ast2 <- call_updateIn ast1 parentCollectionPath
            (call_insert newItemIndex item) ;;
  Some (Some (mkUpdate (Some ast2)
    (Some (push parentCollectionPath [newItemIndex]
           ++ slice_from (path_size itemPath) selected)))).

(** Lines 383-413 of [moveSelected]: no neighbour in that direction. *)
Definition moveOutOfNested (isMoveUp : bool) (ast : imm) (selected : path)
    (collectionPath : path) (itemIndex : key) (itemPath : path) (item : imm)
    (isItemObjectProperty : bool) (newItemPath : path)
    : option (option update) :=
  let collectionIndexPath := slice_to (-3) newItemPath in
  parentCollectionPath <- getClosestCollectionPath ast collectionIndexPath ;;
  if negb isItemObjectProperty then Some None
  else
    outer <- call_getIn ast (butLast parentCollectionPath) ;;
    if negb (isObjectExpression (raw outer)) then Some None
    else moveToParent isMoveUp ast selected collectionPath itemIndex itemPath
           item collectionIndexPath parentCollectionPath.

(** Lines 416-421 of [moveSelected]: the two neighbours change places. *)
Definition swapWithSibling (ast : imm) (selected : path)
    (collectionPath : path) (itemPath : path) (item : imm)
    (newItemIndex : option Z) (newItemPath : path) (targetItem : imm)
    : option (option update) :=
  ast1 <- call_updateIn ast itemPath (fun _ => Some (Val targetItem)) ;;
  ast2 <- call_updateIn ast1 newItemPath (fun _ => Some (Val item)) ;;
  Some (Some (mkUpdate (Some ast2)
    (Some (path_set (path_size collectionPath) (Js.number newItemIndex)
             selected)))).

Definition lt0 (n : option Z) : bool :=
  match n with
  | Some z => z <? 0
  | None => false
  end.

(** The update function of [moveSelected].  [item] and [targetItem] are
    what [ast.getIn] returns, Immutable values, and that is what the source
    hands to [isObjectProperty] and reads [.value] from (lines 350, 358,
    359), unlike [getClosestCollectionPath], [addToHistory] and [insert],
    which call [toJS()] first: hence [raw]. *)
Definition moveSelected_fn (direction : VerticalDirection) : updateFn :=
  fun ast selected =>
  let isMoveUp := match direction with UP => true | DOWN => false end in
  collectionPath <- getClosestCollectionPath ast selected ;;
  let itemIndex :=
    if last_is "end" selected then KNum (path_size collectionPath)
    else Js.or0 (path_get (path_size collectionPath) selected) in
  let itemPath := push collectionPath [itemIndex] in
  item <- call_getIn ast itemPath ;;
  let isItemObjectProperty := isObjectProperty (raw item) in
  let newItemIndex :=
    option_map (fun n => n + (if isMoveUp then -1 else 1))
      (Js.parseInt itemIndex) in
  let newItemPath := push collectionPath [Js.number newItemIndex] in
  targetItem <- call_getIn ast newItemPath ;;
  if isItemObjectProperty && isObjectProperty (raw targetItem)
     && isObjectExpression (prop "value" (raw targetItem))
  then moveIntoNested isMoveUp ast selected collectionPath itemIndex item
         newItemIndex newItemPath
  else if lt0 newItemIndex || negb (truthy targetItem)
  then moveOutOfNested isMoveUp ast selected collectionPath itemIndex itemPath
         item isItemObjectProperty newItemPath
  else swapWithSibling ast selected collectionPath itemPath item newItemIndex
         newItemPath targetItem.

Definition moveSelected (direction : VerticalDirection)
    : editor -> option editor :=
  addToHistory (moveSelected_fn direction).

Definition is_number_key (k : key) : bool :=
  match k with
  | KNum _ | KNaN => true
  | _ => false
  end.

Definition deleteSelected_fn : updateFn := fun ast selected =>
  newAST <- call_deleteIn ast
              (slice_to (1 + findLastIndex is_number_key selected) selected) ;;
  let isASTDelete :=
    match selected with [] => true | _ => false end
    || ((path_size selected =? 2) && last_is "end" selected) in
  Some (Some (mkUpdate
    (Some (if isASTDelete then fromJS nullLiteral else newAST))
    (Some (if isASTDelete || last_is "end" selected then []
           else navigate DOWN newAST (navigate UP ast selected))))).

Definition deleteSelected : editor -> option editor :=
  addToHistory deleteSelected_fn.

(** [undo()].  The result is [None] on an empty history, where the source
    would store [undefined] in [future]; no state the component reaches has
    one. *)
Definition undo (e : editor) : option editor :=
  head <- hd_error (history e) ;;
  let newHistory :=
    if (1 <? Z.of_nat (List.length (history e))) then tl (history e)
    else history e in
  Some (mkEditor (head :: future e) newHistory (showKeymap e)
          (updateEditorStateContext (hd_error newHistory) (contextValue e))
          (effects e)).

Definition redo (e : editor) : editor :=
  let newHistory :=
    match future e with
    | [] => history e
    | next :: _ => next :: history e
    end in
  mkEditor (tl (future e)) newHistory (showKeymap e)
    (updateEditorStateContext (hd_error newHistory) (contextValue e))
    (effects e).

Definition handleCopy (e : editor) : option editor :=
  node <- getSelectedNode e ;;
  if isEditable node then Some e
  else
    s <- getCurrentEditorState e ;;
    let selected1 :=
      if last_is "end" (selected s) then slice_to (-2) (selected s)
      else selected s in
    target <- call_getIn (ast s) selected1 ;;
    exported <- call_toJS target ;;
    Some (mkEditor (future e) (history e) (showKeymap e) (contextValue e)
            (effects e ++ [Generate exported;
                           SetData "text/plain" (generate exported);
                           PreventDefault])).

Definition handleCut (e : editor) : option editor :=
  node <- getSelectedNode e ;;
  if isEditable node then Some e
  else
    e1 <- handleCopy e ;;
    deleteSelected e1.

(** [updateValue(updateFn)]: the function is applied to the [value]
    field of the selected node. *)
Definition updateValue_fn (g : imm -> imm) : updateFn := fun ast selected =>
  newAST <- call_updateIn ast (push selected [KStr "value"])
              (fun value => Some (Val (g value))) ;;
  Some (Some (mkUpdate (Some newAST) None)).

Definition updateValue (g : imm -> imm) : editor -> option editor :=
  addToHistory (updateValue_fn g).

(** [replace(node, subSelected)] *)
Definition replace_fn (node : js) (subSelected : path) : updateFn :=
  fun ast selected =>
  newAST <- call_updateIn ast selected (fun _ => Some (Val (fromJS node))) ;;
  Some (Some (mkUpdate (Some newAST) (Some (selected ++ subSelected)))).

Definition replace (node : js) (subSelected : path) : editor -> option editor :=
  addToHistory (replace_fn node subSelected).

(** [changeSelected(changeFn)].  The direction [changeFn] returns goes
    into [contextValue.lastDirection], which is outside the part of the
    context kept here. *)
Definition changeSelected_fn (changeFn : imm -> path -> path) : updateFn :=
  fun ast selected =>
  Some (Some (mkUpdate (Some ast) (Some (changeFn ast selected)))).

Definition changeSelected (changeFn : imm -> path -> path)
    : editor -> option editor :=
  addToHistory (changeSelected_fn changeFn).

Definition handleSelect (selected : path) : editor -> option editor :=
  changeSelected (fun _ _ => selected).

(** [handleChange({ target: { value } })]: the text typed into the
    selected leaf. *)
Definition handleChange_fn (value : string) : updateFn := fun ast selected =>
  newAST <- call_setIn ast
              (push selected
                 [KStr (if last_is "id" selected then "name" else "value")])
              (IStr value) ;;
  Some (Some (mkUpdate (Some newAST) None)).

Definition handleChange (value : string) : editor -> option editor :=
  addToHistory (handleChange_fn value).

(** The component handles one event at a time; a run is the list of the
    history-related calls made so far, oldest first. *)
Inductive call : Type :=
| Commit (f : updateFn)
| Undo
| Redo.

Definition run1 (c : call) (e : editor) : option editor :=
  match c with
  | Commit f => addToHistory f e
  | Undo => undo e
  | Redo => Some (redo e)
  end.

Fixpoint run (cs : list call) (e : editor) : option editor :=
  match cs with
  | [] => Some e
  | c :: cs' => e' <- run1 c e ;; run cs' e'
  end.

(** The state the constructor builds from the parsed document.
    [SELECTED_PREFIX] is [List.of('program', 'body')]. *)
Definition SELECTED_PREFIX : path := [KStr "program"; KStr "body"].

Definition initial (parsed : imm) (initiallyShowKeymap : bool) : editor :=
  let initalEditorState := mkEditorState parsed SELECTED_PREFIX in
  mkEditor [] [initalEditorState] initiallyShowKeymap initalEditorState [].

End Component.
End Editor.

(** ** Sample documents, used to run the component *)
Module Examples.
Import Immutable Babel.

(** A parsed document: the tree is rooted so that [SELECTED_PREFIX]
    addresses the body. *)
Definition document (body : list js) : imm :=
  fromJS (JObj [("type", JStr "File");
                ("program", JObj [("type", JStr "Program");
                                  ("body", JArr body)])]).

Definition named (name : string) (value : js) : js :=
  objectProperty (stringLiteral name) value.

Definition body0 : path := [KStr "program"; KStr "body"; KNum 0].

(** [{ a: { b: 1 } }], and the path of [b]. *)
Definition nested : imm :=
  document [objectExpression
              [named "a" (objectExpression [named "b" (numericLiteral 1)])]].

Definition path_of_b : path :=
  body0 ++ [KStr "properties"; KNum 0; KStr "value"; KStr "properties"; KNum 0].

(** [{ b: 1, a: {} }]. *)
Definition b_before_a : imm :=
  document [objectExpression
              [named "b" (numericLiteral 1);
               named "a" (objectExpression [])]].

(** [{ a: 1, n: { c: 2 } }], and the paths of the first and of the second
    property of the outer object. *)
Definition siblings : imm :=
  document [objectExpression
              [named "a" (numericLiteral 1);
               named "n" (objectExpression [named "c" (numericLiteral 2)])]].

Definition property_a : imm := fromJS (named "a" (numericLiteral 1)).
Definition property_c : imm := fromJS (named "c" (numericLiteral 2)).
Definition property_n : imm :=
  fromJS (named "n" (objectExpression [named "c" (numericLiteral 2)])).

Definition first_property : path := body0 ++ [KStr "properties"; KNum 0].
Definition second_property : path := body0 ++ [KStr "properties"; KNum 1].

(** [{ n: { c: 2 }, a: 1 }], [{ n: { c: 2, a: 1 } }] and
    [{ n: { a: 1, c: 2 } }]. *)
Definition siblings_swapped : imm :=
  document [objectExpression
              [named "n" (objectExpression [named "c" (numericLiteral 2)]);
               named "a" (numericLiteral 1)]].

Definition a_at_tail_of_n : imm :=
  document [objectExpression
              [named "n" (objectExpression [named "c" (numericLiteral 2);
                                             named "a" (numericLiteral 1)])]].

Definition a_at_head_of_n : imm :=
  document [objectExpression
              [named "n" (objectExpression [named "a" (numericLiteral 1);
                                             named "c" (numericLiteral 2)])]].

(** [{ a: {} }], the ["end"] sentinel of the inner object, and
    [{ a: {}, "": null }]. *)
Definition holder : imm :=
  document [objectExpression [named "a" (objectExpression [])]].

Definition end_of_inner : path :=
  body0 ++ [KStr "properties"; KNum 0; KStr "value"; KStr "properties";
            KStr "end"].

Definition holder_with_second_property : imm :=
  document [objectExpression [named "a" (objectExpression []);
                              named "" nullLiteral]].

(** [{}], [[7, 8]] and [5] as whole documents. *)
Definition empty_object : imm := document [objectExpression []].

Definition two_numbers : imm :=
  document [arrayExpression [numericLiteral 7; numericLiteral 8]].

Definition five : imm := document [numericLiteral 5].

(** A component that has just been constructed on [tree], with the
    selection moved to [selected]. *)
Definition fresh (tree : imm) (selected : path) : editor :=
  let s := mkEditorState tree selected in
  mkEditor [] [s] true s [].

(** Stand-ins for the external services: a generator that prints the type
    of the node, a number normaliser that prints integers in decimal, and a
    navigator that stays where it is. *)
Definition generate (node : js) : string :=
  match prop "type" node with
  | JStr s => s
  | _ => ""
  end.

Definition parseFloat_toString (value : imm) : string :=
  match value with
  | INum n => key_to_string (KNum n)
  | IStr s => s
  | _ => "NaN"
  end.

Definition navigate (d : VerticalDirection) (tree : imm) (p : path) : path := p.

(** The component, with the stand-ins for its services. *)
Definition addToHistory := Editor.addToHistory generate parseFloat_toString.
Definition prepare := Editor.prepare parseFloat_toString.

(** MOVE DOWN on the last element of [[7, 8]]: the update function
    declines. *)
Definition last_of_two : editor :=
  fresh two_numbers (body0 ++ [KStr "elements"; KNum 1]).

Definition last_of_two_head : EditorState :=
  mkEditorState two_numbers (body0 ++ [KStr "elements"; KNum 1]).

Definition last_of_two_start : EditorState :=
  match prepare last_of_two_head with
  | Some s => s
  | None => last_of_two_head
  end.

(** INSERT on [{}]. *)
Definition on_empty_object : editor := fresh empty_object body0.

Definition after_insert : editor :=
  match Editor.insert generate parseFloat_toString nullLiteral on_empty_object with
  | Some e => e
  | None => on_empty_object
  end.

(** MOVE UP on the document [5], the number selected. *)
Definition after_move_on_five : editor :=
  match addToHistory (Editor.moveSelected_fn UP) (fresh five body0) with
  | Some e => e
  | None => fresh five body0
  end.

End Examples.

(** * Properties *)

(** ** Facts about the Immutable.js operations *)
Module ImmutableFacts.
Import Immutable.

Lemma key_eqb_refl (k : key) : key_eqb k k = true.
Proof.
  destruct k; simpl; auto using String.eqb_refl, Z.eqb_refl.
Qed.

Lemma map_get_set_same (k : key) (x : imm) (m : list (key * imm)) :
  map_get k (map_set k x m) = Val x.
Proof.
  induction m as [|[k' v'] m IH]; simpl.
  - now rewrite key_eqb_refl.
  - destruct (key_eqb k k') eqn:E; simpl.
    + now rewrite key_eqb_refl.
    + now rewrite E.
Qed.

Lemma replace_nth_length (n : nat) (x : imm) (l : list imm) :
  List.length (replace_nth n x l) = List.length l.
Proof.
  revert n; induction l as [|y l IH]; intros [|n]; simpl; auto.
Qed.

Lemma nth_error_replace_nth (n : nat) (x : imm) (l : list imm) :
  (n < List.length l)%nat -> nth_error (replace_nth n x l) n = Some x.
Proof.
  revert n; induction l as [|y l IH]; intros [|n] H; simpl in *;
    try lia; auto.
  apply IH; lia.
Qed.

Lemma wrapIndex_size (k : key) (l l' : list imm) :
  List.length l' = List.length l -> wrapIndex l' k = wrapIndex l k.
Proof.
  intros H. destruct k; simpl; auto. unfold size. now rewrite H.
Qed.

(** A key that [list_get] finds denotes an index inside the list. *)
Lemma list_get_Val (k : key) (l : list imm) (v : imm) :
  list_get k l = Val v ->
  exists i, wrapIndex l k = Some i /\ 0 <= i < size l
            /\ nth_error l (Z.to_nat i) = Some v.
Proof.
  unfold list_get, in_range. intros H.
  destruct (wrapIndex l k) as [i|]; [|discriminate].
  destruct (0 <=? i) eqn:E0; [|discriminate].
  destruct (i <? size l) eqn:E1; [|discriminate]. simpl in H.
  destruct (nth_error l (Z.to_nat i)) as [w|] eqn:E2; [|discriminate].
  exists i. injection H as ->. repeat split; auto; lia.
Qed.

Lemma list_get_intro (k : key) (l : list imm) (i : Z) (v : imm) :
  wrapIndex l k = Some i -> 0 <= i < size l ->
  nth_error l (Z.to_nat i) = Some v -> list_get k l = Val v.
Proof.
  intros Hw Hr Hn. unfold list_get, in_range. rewrite Hw.
  replace (0 <=? i) with true by lia. replace (i <? size l) with true by lia.
  simpl. now rewrite Hn.
Qed.

Lemma list_get_set_same (k : key) (x old : imm) (l : list imm) :
  list_get k l = Val old -> list_get k (list_set k x l) = Val x.
Proof.
  intros H. destruct (list_get_Val _ _ _ H) as (i & Hw & Hr & Hn).
  unfold list_set. rewrite Hw.
  replace (i <? 0) with false by lia. replace (i <? size l) with true by lia.
  apply list_get_intro with (i := i).
  - now rewrite (wrapIndex_size k l _ (replace_nth_length (Z.to_nat i) x l)).
  - unfold size in *. rewrite replace_nth_length. lia.
  - apply nth_error_replace_nth. unfold size in Hr. lia.
Qed.

Lemma get_set_same (k : key) (x old v : imm) :
  get k v = Val old -> get k (set k x v) = Val x.
Proof.
  destruct v; simpl; try discriminate; intros H.
  - apply map_get_set_same.
  - eapply list_get_set_same; eauto.
Qed.

Lemma get_Val_collection (k : key) (v x : imm) :
  get k v = Val x -> is_collection v = true.
Proof. destruct v; simpl; auto; discriminate. Qed.

Lemma getIn_slot_app (v : imm) (p q : path) :
  getIn_slot v (p ++ q) =
  match getIn_slot v p with
  | Val x => getIn_slot x q
  | NotSet => NotSet
  end.
Proof.
  revert v; induction p as [|k p IH]; intros v; simpl; auto.
  destruct (get k v); auto.
Qed.

(** Updating below a path that resolves: the update happens in the value
    found there, and the path resolves to the updated value afterwards. *)
Lemma updateInDeep_below (p q : path) (u : imm -> option slot) :
  forall v x x',
    getIn_slot v p = Val x ->
    updateInDeep (Val x) q u = Some (Val x') ->
    exists v',
      updateInDeep (Val v) (p ++ q) u = Some (Val v')
      /\ getIn_slot v' p = Val x'.
Proof.
  induction p as [|k p IH]; intros v x x' Hget Hupd; simpl in *.
  - injection Hget as ->. eauto.
  - destruct (get k v) as [|v1] eqn:Hk; [discriminate|].
    rewrite (get_Val_collection _ _ _ Hk).
    destruct (IH _ _ _ Hget Hupd) as (v1' & Hu & Hg).
    rewrite Hu. eexists; split; [reflexivity|].
    simpl. now rewrite (get_set_same _ _ _ _ Hk).
Qed.

(** Writing a string into a field of a Map that a path resolves to. *)
Lemma updateIn_string_field (v : imm) (p : path) (m : list (key * imm))
    (k : key) (h : imm -> string) :
  getIn_slot v p = Val (IMap m) ->
  exists v',
    updateIn v (p ++ [k]) (fun x => Some (Val (IStr (h x)))) = Some v'
    /\ getIn_slot v' p
       = Val (IMap (map_set k (IStr (h (slot_value (map_get k m)))) m)).
Proof.
  intros Hget.
  destruct (updateInDeep_below p [k] (fun x => Some (Val (IStr (h x))))
              v (IMap m)
              (IMap (map_set k (IStr (h (slot_value (map_get k m)))) m))
              Hget eq_refl) as (v' & Hu & Hg).
  exists v'. unfold updateIn. rewrite Hu. auto.
Qed.

Lemma getIn_of_slot (v : imm) (p : path) (x : imm) :
  getIn_slot v p = Val x -> getIn v p = x.
Proof. unfold getIn. now intros ->. Qed.

(** Inserting at an index between 0 and the size puts the value there. *)
Lemma list_insert_in_range (j : Z) (x : imm) (l : list imm) :
  0 <= j <= size l ->
  list_insert (KNum j) x l
  = Some (firstn (Z.to_nat j) l ++ x :: skipn (Z.to_nat j) l).
Proof.
  intros H. unfold list_insert, resolveBegin.
  replace (j <? 0) with false by lia.
  now replace (Z.min (size l) j) with j by lia.
Qed.

Lemma list_get_inserted (j : Z) (x : imm) (l : list imm) :
  0 <= j <= size l ->
  list_get (KNum j) (firstn (Z.to_nat j) l ++ x :: skipn (Z.to_nat j) l)
  = Val x.
Proof.
  intros H. unfold size in H.
  assert (Hlen : List.length (firstn (Z.to_nat j) l) = Z.to_nat j)
    by (rewrite length_firstn; lia).
  apply list_get_intro with (i := j).
  - simpl. now replace (j <? 0) with false by lia.
  - unfold size. rewrite length_app, Hlen. simpl. lia.
  - rewrite nth_error_app2 by lia. rewrite Hlen, Nat.sub_diag. reflexivity.
Qed.

(** An updater that succeeds on the value a path resolves to. *)
Lemma updateIn_at (v : imm) (p : path) (u : imm -> option slot) (x x' : imm) :
  getIn_slot v p = Val x ->
  u x = Some (Val x') ->
  exists v', updateIn v p u = Some v' /\ getIn_slot v' p = Val x'.
Proof.
  intros Hget Hu.
  assert (Hleaf : updateInDeep (Val x) [] u = Some (Val x')).
  { simpl. rewrite Hu. now destruct x'. }
  destruct (updateInDeep_below p [] u v x x' Hget Hleaf) as (v' & Hupd & Hg).
  rewrite app_nil_r in Hupd. exists v'. unfold updateIn. now rewrite Hupd.
Qed.

Lemma list_set_in_range (j : Z) (x : imm) (l : list imm) :
  0 <= j < size l -> list_set (KNum j) x l = replace_nth (Z.to_nat j) x l.
Proof.
  intros H. unfold list_set, wrapIndex.
  destruct (j <? 0) eqn:E0; [lia|]. rewrite E0.
  destruct (j <? size l) eqn:E1; [reflexivity|lia].
Qed.

Lemma list_delete_in_range (i : Z) (l : list imm) :
  0 <= i < size l -> list_delete (KNum i) l = remove_nth (Z.to_nat i) l.
Proof.
  intros H. unfold list_delete, in_range, wrapIndex.
  destruct (i <? 0) eqn:E0; [lia|].
  destruct (0 <=? i) eqn:E1; [|lia].
  destruct (i <? size l) eqn:E2; [reflexivity|lia].
Qed.

Lemma list_get_in_range (j : Z) (x : imm) (l : list imm) :
  0 <= j -> nth_error l (Z.to_nat j) = Some x -> list_get (KNum j) l = Val x.
Proof.
  intros H Hn. apply list_get_intro with (i := j); auto.
  - simpl. destruct (j <? 0) eqn:E0; [lia|reflexivity].
  - assert (Z.to_nat j < List.length l)%nat
      by (apply nth_error_Some; congruence).
    unfold size. lia.
Qed.

Lemma nth_error_remove_nth_before (n k : nat) (l : list imm) :
  (k < n)%nat -> nth_error (remove_nth n l) k = nth_error l k.
Proof.
  revert n k; induction l as [|y l IH]; intros [|n] [|k] H; simpl; auto;
    try lia.
  apply IH; lia.
Qed.

Lemma nth_error_remove_nth_after (n k : nat) (l : list imm) :
  (n <= k)%nat -> nth_error (remove_nth n l) k = nth_error l (S k).
Proof.
  revert n k; induction l as [|y l IH]; intros n k H.
  - destruct n, k; reflexivity.
  - destruct n, k; simpl; auto; try lia. apply IH; lia.
Qed.

Lemma getIn_slot_collection (v : imm) (p : path) (x : imm) :
  getIn_slot v p = Val x -> is_collection x = true -> is_collection v = true.
Proof.
  destruct p as [|k p]; simpl.
  - now intros [= ->].
  - destruct (get k v) eqn:Hk; [discriminate|].
    intros _ _. eapply get_Val_collection; eauto.
Qed.

End ImmutableFacts.

(** ** The history: commits, undo and redo *)
Section History.

Variable generate : js -> string.
Variable parseFloat_toString : imm -> string.

Local Notation addToHistory := (Editor.addToHistory generate parseFloat_toString).
Local Notation prepare := (Editor.prepare parseFloat_toString).
Local Notation run := (Editor.run generate parseFloat_toString).
Local Notation run1 := (Editor.run1 generate parseFloat_toString).

(** What a commit does, once its three fallible steps have succeeded. *)
Lemma addToHistory_unfold (f : updateFn) (e : editor) (head start : EditorState)
    (result : option update) :
  hd_error (history e) = Some head ->
  prepare head = Some start ->
  f (ast start) (selected start) = Some result ->
  addToHistory f e =
  let newState := Editor.merge (ast start) (selected start) result in
  let isASTPristine := Immutable.imm_is (ast start) (ast newState) in
  match (if Immutable.truthy (ast newState) && negb isASTPristine then
           match Immutable.call_toJS (ast newState) with
           | Some node => Some [Generate node; OnChange (generate node)]
           | None => None
           end
         else Some [])
  with
  | Some notified =>
      if Immutable.path_is (selected start) (selected newState) && isASTPristine
      then Some (mkEditor (future e) (history e) (showKeymap e)
                   newState (effects e ++ notified))
      else Some (mkEditor []
                   (firstn Editor.MAX_HISTORY_LENGTH (newState :: history e))
                   (showKeymap e) newState (effects e ++ notified))
  | None => None
  end.
Proof.
  intros Hh Hp Hf. unfold Editor.addToHistory. rewrite Hh, Hp, Hf. reflexivity.
Qed.

(** A commit that succeeds went through its three steps. *)
Lemma addToHistory_Some (f : updateFn) (e e' : editor) :
  addToHistory f e = Some e' ->
  exists head start result,
    hd_error (history e) = Some head
    /\ prepare head = Some start
    /\ f (ast start) (selected start) = Some result.
Proof.
  unfold Editor.addToHistory. intros H.
  destruct (hd_error (history e)) as [head|] eqn:Hh; [|discriminate].
  destruct (prepare head) as [start|] eqn:Hp; [|discriminate].
  destruct (f (ast start) (selected start)) as [result|] eqn:Hf;
    [|discriminate].
  exists head, start, result. auto.
Qed.

Lemma undo_single_entry_shape (s : EditorState) (fut : list EditorState)
    (k : bool) (ctx : EditorState) (eff : list effect) :
  Editor.undo (mkEditor fut [s] k ctx eff)
  = Some (mkEditor (s :: fut) [s] k s eff).
Proof. reflexivity. Qed.

(** C1: with exactly one history entry, [undo()] leaves the history as it
    is but still puts a copy of the head on [future]: the call is not the
    no-op the specification describes. *)
Theorem undo_single_entry_grows_future (s : EditorState)
    (fut : list EditorState) (k : bool) (ctx : EditorState)
    (eff : list effect) :
  Editor.undo (mkEditor fut [s] k ctx eff)
  = Some (mkEditor (s :: fut) [s] k s eff).
Proof. reflexivity. Qed.

(** C5: a commit whose update function hands back a tree equal (by
    [Immutable.is]) to the tree it was given and a selection equal to the
    selection it was given records nothing: the history and the future
    stack are the ones before the commit, and no effect (no generator call,
    no change notification) is added. *)
Theorem commit_of_equal_state_records_nothing (f : updateFn) (e : editor)
    (head start : EditorState) (result : option update) :
  hd_error (history e) = Some head ->
  prepare head = Some start ->
  f (ast start) (selected start) = Some result ->
  Immutable.imm_is (ast start)
    (ast (Editor.merge (ast start) (selected start) result)) = true ->
  Immutable.path_is (selected start)
    (selected (Editor.merge (ast start) (selected start) result)) = true ->
  exists e',
    addToHistory f e = Some e'
    /\ history e' = history e
    /\ future e' = future e
    /\ effects e' = effects e.
Proof.
  intros Hh Hp Hf Hast Hsel.
  rewrite (addToHistory_unfold f e _ _ _ Hh Hp Hf). cbv zeta.
  rewrite Hast, Hsel, andb_false_r. simpl.
  eexists; repeat split; simpl; auto using app_nil_r.
Qed.

Lemma more_than_one (A : Type) (x y : A) (l : list A) :
  (1 <? Z.of_nat (List.length (x :: y :: l))) = true.
Proof. apply Z.ltb_lt. simpl List.length. lia. Qed.

Lemma firstn_cap_two (A : Type) (x y : A) (l : list A) :
  firstn Editor.MAX_HISTORY_LENGTH (x :: y :: l) = x :: y :: firstn 98 l.
Proof. reflexivity. Qed.

Lemma undo_two_entries (fut : list EditorState) (x y : EditorState)
    (l : list EditorState) (k : bool) (ctx : EditorState) (eff : list effect) :
  Editor.undo (mkEditor fut (x :: y :: l) k ctx eff)
  = Some (mkEditor (x :: fut) (y :: l) k y eff).
Proof.
  unfold Editor.undo.
  cbn [history future showKeymap contextValue effects hd_error].
  rewrite more_than_one. reflexivity.
Qed.

(** C6: after a tree-changing commit, [undo()] exposes exactly the
    EditorState that was the head before the commit, and [redo()] right
    after it exposes exactly the committed state again (the two stacks are
    then the ones the commit left). *)
Theorem undo_then_redo_after_commit (f : updateFn) (e e1 : editor)
    (head start : EditorState) (result : option update) :
  hd_error (history e) = Some head ->
  prepare head = Some start ->
  f (ast start) (selected start) = Some result ->
  Immutable.imm_is (ast start)
    (ast (Editor.merge (ast start) (selected start) result)) = false ->
  addToHistory f e = Some e1 ->
  exists e2,
    Editor.undo e1 = Some e2
    /\ Editor.getCurrentEditorState e1
       = Some (Editor.merge (ast start) (selected start) result)
    /\ Editor.getCurrentEditorState e2 = Some head
    /\ contextValue e2 = head
    /\ Editor.getCurrentEditorState (Editor.redo e2)
       = Editor.getCurrentEditorState e1
    /\ contextValue (Editor.redo e2) = contextValue e1
    /\ history (Editor.redo e2) = history e1
    /\ future (Editor.redo e2) = future e1.
Proof.
  intros Hh Hp Hf Hast H.
  rewrite (addToHistory_unfold f e _ _ _ Hh Hp Hf) in H. cbv zeta in H.
  rewrite Hast, andb_false_r in H.
  destruct (history e) as [|head' rest] eqn:Hhist; [discriminate|].
  injection Hh as ->.
  rewrite firstn_cap_two in H.
  remember (firstn 98 rest) as kept eqn:Hkept. clear Hkept.
  match type of H with
  | match ?c with _ => _ end = _ => destruct c as [notified|]
  end; [|discriminate].
  injection H as <-.
  rewrite undo_two_entries. eexists; split; [reflexivity|].
  simpl. repeat split.
Qed.

(** C10: [undo()] and [redo()] add no effect at all, so they neither call
    the generator nor the change callback, whatever they do to the exposed
    tree; a commit adds the pair (generator call, change notification)
    exactly when its new tree is truthy and differs by [Immutable.is] from
    the tree the update function was given, and adds nothing otherwise. *)
Theorem only_tree_changing_commits_notify :
  (forall e e', Editor.undo e = Some e' -> effects e' = effects e)
  /\ (forall e, effects (Editor.redo e) = effects e)
  /\ (forall f e e',
        addToHistory f e = Some e' ->
        exists head start result,
          hd_error (history e) = Some head
          /\ prepare head = Some start
          /\ f (ast start) (selected start) = Some result
          /\ let newState := Editor.merge (ast start) (selected start) result in
             effects e' =
             effects e ++
             (if Immutable.truthy (ast newState)
                 && negb (Immutable.imm_is (ast start) (ast newState))
              then [Generate (Immutable.toJS (ast newState));
                    OnChange (generate (Immutable.toJS (ast newState)))]
              else [])).
Proof.
  split; [|split].
  - intros e e'. unfold Editor.undo.
    destruct (hd_error (history e)); [|discriminate].
    intros H. now injection H as <-.
  - reflexivity.
  - intros f e e' H.
    destruct (addToHistory_Some f e _ H) as (head & start & result & Hh & Hp & Hf).
    exists head, start, result. repeat split; auto.
    rewrite (addToHistory_unfold f e _ _ _ Hh Hp Hf) in H. cbv zeta in *.
    destruct (Immutable.truthy _ && negb _) eqn:Hcond.
    + unfold Immutable.call_toJS in H.
      destruct (Immutable.is_collection _); [|discriminate].
      destruct (Immutable.path_is _ _ && _); now injection H as <-.
    + destruct (Immutable.path_is _ _ && _); now injection H as <-.
Qed.

Lemma Some_eq (A : Type) (x y : A) : Some x = Some y -> x = y.
Proof. congruence. Qed.

(** A commit that changes the tree puts the new state on top of the
    history and keeps the [MAX_HISTORY_LENGTH] most recent entries. *)
Lemma commit_records_on_top (f : updateFn) (e e' : editor)
    (head start : EditorState) (result : option update) :
  hd_error (history e) = Some head ->
  prepare head = Some start ->
  f (ast start) (selected start) = Some result ->
  Immutable.imm_is (ast start)
    (ast (Editor.merge (ast start) (selected start) result)) = false ->
  addToHistory f e = Some e' ->
  history e' = firstn Editor.MAX_HISTORY_LENGTH
                 (Editor.merge (ast start) (selected start) result :: history e)
  /\ future e' = []
  /\ List.length (history e')
     = Nat.min Editor.MAX_HISTORY_LENGTH (S (List.length (history e))).
Proof.
  intros Hh Hp Hf Hast H.
  rewrite (addToHistory_unfold f e _ _ _ Hh Hp Hf) in H. cbv zeta in H.
  rewrite Hast, andb_false_r in H.
  match type of H with
  | match ?c with _ => _ end = _ => destruct c as [notified|]
  end; [|discriminate].
  apply Some_eq in H. subst e'. cbn [history future].
  split; [reflexivity|]. split; [reflexivity|].
  rewrite length_firstn. reflexivity.
Qed.

(** No commit leaves more than [MAX_HISTORY_LENGTH] entries behind, if
    there were no more before. *)
Lemma commit_respects_cap (f : updateFn) (e e' : editor) :
  addToHistory f e = Some e' ->
  (List.length (history e) <= Editor.MAX_HISTORY_LENGTH)%nat ->
  (List.length (history e') <= Editor.MAX_HISTORY_LENGTH)%nat.
Proof.
  intros H Hle.
  destruct (addToHistory_Some f e _ H) as (head & start & result & Hh & Hp & Hf).
  rewrite (addToHistory_unfold f e _ _ _ Hh Hp Hf) in H. cbv zeta in H.
  match type of H with
  | match ?c with _ => _ end = _ => destruct c as [notified|]
  end; [|discriminate].
  destruct (Immutable.path_is _ _ && _); apply Some_eq in H; subst e';
    cbn [history]; auto.
  rewrite length_firstn. apply Nat.le_min_l.
Qed.

(** The history is never empty: no call empties it. *)
Lemma history_never_empty (cs : list Editor.call) :
  forall e e', history e <> [] -> run cs e = Some e' -> history e' <> [].
Proof.
  induction cs as [|c cs IH]; intros e e' Hne H; simpl in H.
  - now injection H as <-.
  - destruct (run1 c e) as [e1|] eqn:H1; [|discriminate].
    apply (IH e1 e'); auto. clear IH H.
    destruct c as [f| |]; simpl in H1.
    + destruct (addToHistory_Some f e _ H1)
        as (head & start & result & Hh & Hp & Hf).
      rewrite (addToHistory_unfold f e _ _ _ Hh Hp Hf) in H1. cbv zeta in H1.
      match type of H1 with
      | match ?c with _ => _ end = _ => destruct c as [notified|]
      end; [|discriminate].
      destruct (Immutable.path_is _ _ && _); injection H1 as <-;
        cbn [history]; auto.
      discriminate.
    + destruct e as [fut h k ctx eff]. cbn [history] in Hne.
      destruct h as [|x [|y l]]; [contradiction| |].
      * rewrite undo_single_entry_shape in H1. apply Some_eq in H1.
        subst e1. discriminate.
      * rewrite undo_two_entries in H1. apply Some_eq in H1.
        subst e1. discriminate.
    + injection H1 as <-. unfold Editor.redo. cbn [history].
      destruct (future e); auto. discriminate.
Qed.

(** [committed e states e']: [e'] is reached from [e] by tree-changing
    commits only, which pushed [states], the most recent first. *)
Inductive committed (e : editor) : list EditorState -> editor -> Prop :=
| committed_none : committed e [] e
| committed_more (states : list EditorState) (e1 e2 : editor) (f : updateFn)
    (head start : EditorState) (result : option update) :
    committed e states e1 ->
    hd_error (history e1) = Some head ->
    prepare head = Some start ->
    f (ast start) (selected start) = Some result ->
    Immutable.imm_is (ast start)
      (ast (Editor.merge (ast start) (selected start) result)) = false ->
    addToHistory f e1 = Some e2 ->
    committed e
      (Editor.merge (ast start) (selected start) result :: states) e2.

Lemma firstn_cons_firstn (A : Type) (n : nat) (x : A) (l : list A) :
  firstn (S n) (x :: firstn (S n) l) = firstn (S n) (x :: l).
Proof.
  cbn [firstn]. f_equal.
  change (match l with
          | [] => []
          | a :: l0 => a :: firstn n l0
          end) with (firstn (S n) l).
  rewrite firstn_firstn. f_equal. lia.
Qed.

(** After tree-changing commits the history holds the states they pushed,
    most recent first, followed by what was there, cut at
    [MAX_HISTORY_LENGTH]: after a hundred or more of them it holds exactly
    the hundred most recent states. *)
Lemma commits_keep_most_recent (e e' : editor) (states : list EditorState) :
  committed e states e' ->
  history e' = firstn Editor.MAX_HISTORY_LENGTH (states ++ history e)
               \/ (states = [] /\ e' = e).
Proof.
  induction 1 as [|states e1 e2 f head start result Hc IH Hh Hp Hf Hast Hadd].
  - right. auto.
  - left.
    destruct (commit_records_on_top f e1 e2 head start result Hh Hp Hf Hast Hadd)
      as (Hhist & _ & _).
    rewrite Hhist. destruct IH as [IH|[-> ->]].
    + rewrite IH. apply firstn_cons_firstn.
    + reflexivity.
Qed.

Lemma hundred_commits_fill_history (e e' : editor) (states : list EditorState) :
  committed e states e' ->
  (Editor.MAX_HISTORY_LENGTH <= List.length states)%nat ->
  history e' = firstn Editor.MAX_HISTORY_LENGTH states
  /\ List.length (history e') = Editor.MAX_HISTORY_LENGTH.
Proof.
  intros Hc Hlen.
  destruct (commits_keep_most_recent e e' states Hc) as [H|[-> _]].
  - rewrite H, firstn_app.
    replace (Editor.MAX_HISTORY_LENGTH - List.length states)%nat with O by lia.
    rewrite app_nil_r. split; [reflexivity|].
    rewrite length_firstn. lia.
  - simpl in Hlen. unfold Editor.MAX_HISTORY_LENGTH in Hlen. lia.
Qed.

(** C4: the history is never empty, but it is not capped: from the
    initial state, a hundred [undo()] calls (each of which, on a
    one-entry history, stacks a copy of the head on [future]) followed by a
    hundred [redo()] calls leave 101 entries, one more than
    [MAX_HISTORY_LENGTH]. *)
Theorem undo_redo_exceed_history_cap (parsed : imm) (k : bool) :
  exists e,
    run (repeat Editor.Undo 100 ++ repeat Editor.Redo 100)
      (Editor.initial parsed k) = Some e
    /\ future e = []
    /\ history e = repeat (mkEditorState parsed Editor.SELECTED_PREFIX) 101
    /\ (List.length (history e) > Editor.MAX_HISTORY_LENGTH)%nat.
Proof.
  exists (mkEditor [] (repeat (mkEditorState parsed Editor.SELECTED_PREFIX) 101)
            k (mkEditorState parsed Editor.SELECTED_PREFIX) []).
  split; [vm_compute; reflexivity|].
  split; [reflexivity|]. split; [reflexivity|].
  cbn [history]. rewrite repeat_length. unfold Editor.MAX_HISTORY_LENGTH. lia.
Qed.

End History.

(** ** What a commit hands to its update function *)
Section Prepare.
Import Immutable Babel ImmutableFacts.

Variable generate : js -> string.
Variable parseFloat_toString : imm -> string.

Local Notation addToHistory := (Editor.addToHistory generate parseFloat_toString).
Local Notation prepare := (Editor.prepare parseFloat_toString).

Lemma unresolved_is_falsy (v : imm) (p : path) :
  getIn_slot v p = NotSet -> truthy (getIn v p) = false.
Proof. unfold getIn. now intros ->. Qed.

(** C9: before the update function runs, a selection that does not
    resolve in the tree and does not end in ["end"] is replaced by the
    empty path; and when the selection the commit works with resolves to a
    NumericLiteral node, the update function is given the tree in which
    that node's ["value"] field holds [parseFloat(value).toString()] of
    what it held. *)
Theorem commit_repairs_selection_and_number (f : updateFn) (e e' : editor)
    (head : EditorState) :
  hd_error (history e) = Some head ->
  addToHistory f e = Some e' ->
  exists start result,
    prepare head = Some start
    /\ f (ast start) (selected start) = Some result
    /\ selected start = Editor.effective_selection head
    /\ (last_is "end" (selected head) = false ->
        getIn_slot (ast head) (selected head) = NotSet ->
        selected start = [])
    /\ (forall m,
          getIn_slot (ast head) (selected start) = Val (IMap m) ->
          isNumericLiteral (toJS (IMap m)) = true ->
          Some (ast start)
          = updateIn (ast head) (selected start ++ [KStr "value"])
              (fun value => Some (Val (IStr (parseFloat_toString value))))
          /\ getIn (ast start) (selected start ++ [KStr "value"])
             = IStr (parseFloat_toString
                       (getIn (ast head) (selected start ++ [KStr "value"])))).
Proof.
  intros Hh H.
  destruct (addToHistory_Some generate parseFloat_toString f e e' H)
    as (head' & start & result & Hh' & Hp & Hf).
  rewrite Hh in Hh'. injection Hh' as <-.
  exists start, result. split; [assumption|]. split; [assumption|].
  unfold Editor.prepare in Hp.
  destruct (is_collection (ast head)) eqn:Hc; [|discriminate].
  set (sel := Editor.effective_selection head) in *.
  assert (Hsel : selected start = sel).
  { destruct (truthy (getIn (ast head) sel)).
    - destruct (call_toJS (getIn (ast head) sel)); [|discriminate].
      destruct (isNumericLiteral j).
      + destruct (call_updateIn _ _ _); [|discriminate].
        now injection Hp as <-.
      + now injection Hp as <-.
    - now injection Hp as <-. }
  split; [assumption|]. split.
  - intros Hend Hun. rewrite Hsel. unfold sel, Editor.effective_selection.
    now rewrite Hend, (unresolved_is_falsy _ _ Hun).
  - intros m Hm Hnum. rewrite Hsel in *.
    rewrite (getIn_of_slot _ _ _ Hm) in Hp. simpl truthy in Hp.
    unfold call_toJS in Hp. simpl is_collection in Hp. cbv iota in Hp.
    rewrite Hnum in Hp. unfold call_updateIn, push in Hp. rewrite Hc in Hp.
    destruct (updateIn_string_field (ast head) sel m (KStr "value")
                parseFloat_toString Hm) as (v' & Hu & Hg).
    rewrite Hu in Hp. injection Hp as <-. simpl ast.
    split; [symmetry; exact Hu|].
    unfold getIn. rewrite !getIn_slot_app, Hg, Hm. simpl.
    rewrite map_get_set_same. simpl.
    now destruct (map_get (KStr "value") m).
Qed.

(** A commit gets through its preparation whenever the tree is a
    collection and the selection it works with is falsy or a collection
    (a node, never a bare string or number). *)
Lemma prepare_succeeds (head : EditorState) :
  is_collection (ast head) = true ->
  (truthy (getIn (ast head) (Editor.effective_selection head)) = true ->
   is_collection (getIn (ast head) (Editor.effective_selection head)) = true) ->
  exists start, prepare head = Some start.
Proof.
  intros Hc Hnode. unfold Editor.prepare. rewrite Hc.
  set (sel := Editor.effective_selection head) in *.
  destruct (truthy (getIn (ast head) sel)) eqn:Ht; [|eauto].
  specialize (Hnode eq_refl). unfold call_toJS. rewrite Hnode.
  destruct (isNumericLiteral (toJS (getIn (ast head) sel))) eqn:Hnum; [|eauto].
  unfold getIn in Hnode, Hnum.
  destruct (getIn_slot (ast head) sel) as [|x] eqn:Hx; [discriminate|].
  simpl in Hnode, Hnum.
  destruct x as [| | | | |entries|]; try discriminate.
  destruct (updateIn_string_field (ast head) sel entries (KStr "value")
              parseFloat_toString Hx) as (v' & Hu & _).
  unfold call_updateIn, push. rewrite Hc, Hu. eauto.
Qed.

End Prepare.

(** ** Clipboard export *)
Section Clipboard.
Import Immutable Babel ImmutableFacts.

Variable generate : js -> string.
Variable parseFloat_toString : imm -> string.
Variable navigate : VerticalDirection -> imm -> path -> path.

Local Notation handleCopy := (Editor.handleCopy generate).
Local Notation handleCut :=
  (Editor.handleCut generate parseFloat_toString navigate).

(** [slice(0, -2)] drops the last two steps of a path. *)
Lemma slice_to_minus_two (p : path) :
  slice_to (-2) p = removelast (removelast p).
Proof.
  unfold slice_to, path_size.
  change (-2 <? 0) with true. cbv iota.
  rewrite !removelast_firstn_len, length_firstn, firstn_firstn.
  f_equal. lia.
Qed.

Lemma falsy_is_not_editable (v : imm) :
  truthy v = false -> Editor.isEditable (toJS v) = false.
Proof.
  destruct v; simpl; try discriminate; intros H; try reflexivity;
    unfold Editor.isEditable, isStringLiteral, isNumericLiteral, isIdentifier,
      is_node; simpl; now rewrite ?H.
Qed.

(** C8: when the selection ends in the ["end"] sentinel (which addresses
    no node), the copy handler exports the generator's rendering of the
    node found at the selection without its last two steps; and when the
    selected node is an editable leaf (StringLiteral, NumericLiteral or
    Identifier), copy and cut leave the component and the clipboard
    untouched. *)
Theorem copy_backs_off_from_end_and_skips_leaves (e : editor) :
  (forall s,
     Editor.getCurrentEditorState e = Some s ->
     last_is "end" (selected s) = true ->
     is_collection (ast s) = true ->
     truthy (getIn (ast s) (selected s)) = false ->
     is_collection (getIn (ast s) (removelast (removelast (selected s))))
     = true ->
     let exported :=
       toJS (getIn (ast s) (removelast (removelast (selected s)))) in
     handleCopy e
     = Some (mkEditor (future e) (history e) (showKeymap e) (contextValue e)
               (effects e ++ [Generate exported;
                              SetData "text/plain" (generate exported);
                              PreventDefault])))
  /\ (forall node,
        Editor.getSelectedNode e = Some node ->
        Editor.isEditable node = true ->
        handleCopy e = Some e /\ handleCut e = Some e).
Proof.
  split.
  - intros s Hs Hend Hc Hfalsy Htarget exported.
    unfold Editor.handleCopy, Editor.getSelectedNode.
    rewrite Hs. unfold call_getIn. rewrite Hc, Hfalsy.
    rewrite (falsy_is_not_editable _ Hfalsy), Hend, slice_to_minus_two.
    unfold call_toJS. rewrite Htarget. reflexivity.
  - intros node Hnode Hed. unfold Editor.handleCut, Editor.handleCopy.
    now rewrite Hnode, Hed.
Qed.

End Clipboard.

(** ** Insertion *)
Section Insert.
Import Immutable Babel ImmutableFacts.

Lemma is_node_toJS_collection (type : string) (v : imm) :
  is_node type (toJS v) = true -> is_collection v = true.
Proof.
  destruct v; simpl; auto; unfold is_node; simpl;
    rewrite ?andb_false_r; auto; discriminate.
Qed.

Lemma is_node_one_type (t1 t2 : string) (n : js) :
  is_node t1 n = true -> String.eqb t1 t2 = false -> is_node t2 n = false.
Proof.
  unfold is_node. destruct (js_truthy n); simpl; auto.
  destruct (prop "type" n); auto.
  intros H1 H2. apply String.eqb_eq in H1. subst s.
  now rewrite H2.
Qed.


Lemma path_get_beyond (selected : path) (k : key) :
  path_get (path_size (selected ++ [k])) selected = None.
Proof.
  unfold path_get, path_size.
  destruct (Z.of_nat (List.length (selected ++ [k])) <? 0) eqn:E; [reflexivity|].
  apply nth_error_None. rewrite Nat2Z.id, length_app. simpl. lia.
Qed.


Lemma insert_index_in_selected_collection (selected : path) (k : key) :
  last_is "end" selected = false ->
  Editor.insert_index selected (selected ++ [k]) = KNum 0.
Proof.
  intros H. unfold Editor.insert_index. now rewrite H, path_get_beyond.
Qed.

(** As long as the index [insert] computes lies within the collection it
    finds: when that collection is an ObjectExpression, the node is inserted
    wrapped in an ObjectProperty whose key is the StringLiteral [""] and
    whose value is the node, and the new selection is the path of that
    property's [key] field; when it is an ArrayExpression, the node itself
    is inserted and the new selection is the path of the new element. *)
Lemma insert_fn_within_collection (node : js) (ast : imm)
    (selected cp : path) (items : list imm) (j : Z) :
  Editor.getClosestCollectionPath ast
    (if last_is "end" selected then slice_to (-3) selected else selected)
  = Some cp ->
  Editor.insert_index selected cp = KNum j ->
  getIn_slot ast cp = Val (IList items) ->
  0 <= j <= size items ->
  let collectionNode := toJS (getIn ast (butLast cp)) in
  let wrapped := fromJS (objectProperty (stringLiteral "") node) in
  (isObjectExpression collectionNode = true ->
   exists newAST,
     Editor.insert_fn node ast selected
     = Some (Some (mkUpdate (Some newAST)
                     (Some (cp ++ [KNum j; KStr "key"]))))
     /\ getIn_slot newAST cp
        = Val (IList (firstn (Z.to_nat j) items
                      ++ wrapped :: skipn (Z.to_nat j) items))
     /\ getIn newAST (cp ++ [KNum j]) = wrapped
     /\ getIn newAST (cp ++ [KNum j; KStr "key"]) = fromJS (stringLiteral "")
     /\ getIn newAST (cp ++ [KNum j; KStr "value"]) = fromJS node)
  /\ (isArrayExpression collectionNode = true ->
      exists newAST,
        Editor.insert_fn node ast selected
        = Some (Some (mkUpdate (Some newAST) (Some (cp ++ [KNum j]))))
        /\ getIn_slot newAST cp
           = Val (IList (firstn (Z.to_nat j) items
                         ++ fromJS node :: skipn (Z.to_nat j) items))
        /\ getIn newAST (cp ++ [KNum j]) = fromJS node).
Proof.
  intros Hcp Hidx Hitems Hj collectionNode wrapped.
  assert (Hast : is_collection ast = true).
  { unfold Editor.getClosestCollectionPath, call_getIn in Hcp.
    destruct (is_collection ast); [reflexivity|discriminate]. }
  assert (Hstep : forall x isArray,
             isArrayExpression collectionNode = isArray ->
             isObjectExpression collectionNode = negb isArray ->
             (if isArray then fromJS node else wrapped) = x ->
             exists newAST,
               Editor.insert_fn node ast selected
               = Some (Some (mkUpdate (Some newAST)
                    (Some (if isArray then cp ++ [KNum j]
                           else (cp ++ [KNum j]) ++ [KStr "key"]))))
               /\ getIn_slot newAST cp
                  = Val (IList (firstn (Z.to_nat j) items
                                ++ x :: skipn (Z.to_nat j) items))
               /\ getIn_slot newAST (cp ++ [KNum j]) = Val x).
  { intros x isArray HA HO Hx.
    assert (Hnode : is_collection (getIn ast (butLast cp)) = true).
    { destruct isArray; [apply (is_node_toJS_collection _ _ HA)
                        |apply (is_node_toJS_collection _ _ HO)]. }
    destruct (updateIn_at ast cp (call_insert (KNum j) x) (IList items)
                (IList (firstn (Z.to_nat j) items
                        ++ x :: skipn (Z.to_nat j) items)) Hitems)
      as (newAST & Hupd & Hget).
    { unfold call_insert. now rewrite list_insert_in_range. }
    exists newAST. unfold Editor.insert_fn. rewrite Hcp.
    rewrite Hidx.
    unfold call_getIn, call_toJS, call_updateIn, push.
    rewrite Hast, Hnode. fold collectionNode. rewrite HA, HO.
    fold wrapped. rewrite Hx, Hupd.
    split; [now destruct isArray|]. split; [assumption|].
    rewrite getIn_slot_app, Hget. simpl.
    now rewrite list_get_inserted. }
  split; intros Hkind.
  - destruct (Hstep wrapped false) as (newAST & Hins & Hlist & Hnew); auto.
    { apply (is_node_one_type _ _ _ Hkind). reflexivity. }
    exists newAST. rewrite <- app_assoc in Hins. simpl in Hins.
    split; [assumption|]. split; [assumption|].
    unfold getIn.
    change (cp ++ [KNum j; KStr "key"]) with (cp ++ [KNum j] ++ [KStr "key"]).
    change (cp ++ [KNum j; KStr "value"])
      with (cp ++ [KNum j] ++ [KStr "value"]).
    rewrite !app_assoc, !getIn_slot_app. rewrite <- getIn_slot_app, Hnew.
    repeat split.
  - destruct (Hstep (fromJS node) true) as (newAST & Hins & Hlist & Hnew); auto.
    { apply (is_node_one_type _ _ _ Hkind). reflexivity. }
    exists newAST. split; [assumption|]. split; [assumption|].
    unfold getIn. now rewrite Hnew.
Qed.

(** C7: on an ["end"] selection, [insert] does not act on the object the
    selection is in.  On [{ a: {} }] with the sentinel of the inner object
    selected, the wrapped node goes into the outer object (found three
    steps up), at an index that is the length of the collection path and
    so past the end, and the new selection, built from that index, addresses
    nothing; on [{}] with its own sentinel selected, nothing is inserted. *)
Theorem insert_at_end_sentinel_misses_the_collection :
  Editor.insert_fn nullLiteral Examples.holder Examples.end_of_inner
  = Some (Some (mkUpdate (Some Examples.holder_with_second_property)
                  (Some (Examples.body0
                         ++ [KStr "properties"; KNum 4; KStr "key"]))))
  /\ getIn_slot Examples.holder_with_second_property
       (Examples.body0 ++ [KStr "properties"; KNum 4; KStr "key"]) = NotSet
  /\ getIn Examples.holder_with_second_property
       (Examples.body0
        ++ [KStr "properties"; KNum 0; KStr "value"; KStr "properties"])
     = IList []
  /\ Editor.insert_fn nullLiteral Examples.empty_object
       (Examples.body0 ++ [KStr "properties"; KStr "end"])
     = Some None.
Proof. repeat split; vm_compute; reflexivity. Qed.

End Insert.

(** ** Moving the selected element *)
Section Move.
Import Immutable Babel ImmutableFacts.

(** babel-types reads [node.type], and an Immutable Map or List has no such
    property: no value taken out of the tree passes one of its tests
    unless it is converted with [toJS] first. *)
Lemma raw_is_no_node (type : string) (v : imm) :
  is_node type (raw v) = false.
Proof.
  unfold is_node. destruct v; simpl; auto using andb_false_r.
Qed.

(** So [moveSelected], which tests [item] as it comes from [getIn], never
    finds an ObjectProperty: whenever it does anything, it swaps. *)
Lemma moveSelected_only_swaps (direction : VerticalDirection) (ast : imm)
    (selected : path) (u : update) :
  Editor.moveSelected_fn direction ast selected = Some (Some u) ->
  exists collectionPath itemPath item newItemIndex newItemPath targetItem,
    Editor.swapWithSibling ast selected collectionPath itemPath item
      newItemIndex newItemPath targetItem = Some (Some u).
Proof.
  unfold Editor.moveSelected_fn.
  destruct (Editor.getClosestCollectionPath ast selected) as [cp|];
    [|discriminate].
  destruct (call_getIn ast _) as [item|]; [|discriminate].
  destruct (call_getIn ast _) as [targetItem|]; [|discriminate].
  unfold isObjectProperty. rewrite !raw_is_no_node. simpl.
  destruct (_ || _).
  - unfold Editor.moveOutOfNested.
    destruct (Editor.getClosestCollectionPath ast _); discriminate.
  - eauto 10.
Qed.

(** The lines that would take [b] out are there: run on their own on
    [{ a: { b: 1 } }], they put [b] in the outer object right before [a]
    and select it.  [moveSelected] never reaches them. *)
Lemma moveToParent_puts_b_before_a :
  Editor.moveToParent true Examples.nested Examples.path_of_b
    (Examples.body0
     ++ [KStr "properties"; KNum 0; KStr "value"; KStr "properties"])
    (KNum 0) Examples.path_of_b (getIn Examples.nested Examples.path_of_b)
    (Examples.body0 ++ [KStr "properties"; KNum 0])
    (Examples.body0 ++ [KStr "properties"])
  = Some (Some (mkUpdate (Some Examples.b_before_a)
                  (Some (Examples.body0 ++ [KStr "properties"; KNum 0])))).
Proof. vm_compute. reflexivity. Qed.

(** Lines 361-379 taken on their own, which [moveSelected] never
    reaches ([moveSelected_only_swaps]): they take the selected property
    out of its collection and put it into the [properties] of the
    neighbour's value, at the tail when moving UP and at the head when
    moving DOWN; the new selection is the path of the property at its new
    place, followed by what the old selection had below the property. *)
Theorem moveIntoNested_tail_up_head_down (isMoveUp : bool) (ast : imm)
    (selected cp : path) (items props : list imm) (item target : imm)
    (i : Z) :
  let j := i + (if isMoveUp then -1 else 1) in
  let j' := if isMoveUp then j else j - 1 in
  let t := if isMoveUp then size props else 0 in
  getIn_slot ast cp = Val (IList items) ->
  0 <= i -> 0 <= j ->
  nth_error items (Z.to_nat i) = Some item ->
  nth_error items (Z.to_nat j) = Some target ->
  getIn_slot target [KStr "value"; KStr "properties"] = Val (IList props) ->
  exists target' newAST,
    Editor.moveIntoNested isMoveUp ast selected cp (KNum i) item (Some j)
      (cp ++ [KNum j])
    = Some (Some (mkUpdate (Some newAST)
              (Some ((cp ++ [KNum j'; KStr "value"; KStr "properties"; KNum t])
                     ++ slice_from (path_size cp + 1) selected))))
    /\ getIn_slot target' [KStr "value"; KStr "properties"]
       = Val (IList (if isMoveUp then props ++ [item] else item :: props))
    /\ getIn_slot newAST cp
       = Val (IList (remove_nth (Z.to_nat i)
                       (replace_nth (Z.to_nat j) target' items)))
    /\ getIn newAST (cp ++ [KNum j'; KStr "value"; KStr "properties"; KNum t])
       = item.
Proof.
  intros j j' t Hitems Hi Hj Hitem Htarget Hprops.
  set (props' := if isMoveUp then props ++ [item] else item :: props).
  set (u := call_insert (KNum t) item).
  assert (Hilt : (Z.to_nat i < List.length items)%nat)
    by (apply nth_error_Some; congruence).
  assert (Hjlt : (Z.to_nat j < List.length items)%nat)
    by (apply nth_error_Some; congruence).
  assert (Hast : is_collection ast = true)
    by (apply (getIn_slot_collection _ _ _ Hitems); reflexivity).
  (* the insertion, seen from the neighbour *)
  assert (Hleaf : updateInDeep (Val (IList props)) [] u = Some (Val (IList props'))).
  { cbn [updateInDeep slot_value]. unfold u, call_insert, t, props'.
    destruct isMoveUp.
    - rewrite list_insert_in_range by (unfold size; lia).
      unfold size. rewrite Nat2Z.id, firstn_all, skipn_all. reflexivity.
    - rewrite list_insert_in_range by (unfold size; lia). reflexivity. }
  destruct (updateInDeep_below [KStr "value"; KStr "properties"] [] u
              target (IList props) (IList props') Hprops Hleaf)
    as (target' & Hut & Hgt).
  (* seen from the collection *)
  assert (Hlist : updateInDeep (Val (IList items))
                    (KNum j :: [KStr "value"; KStr "properties"] ++ []) u
                  = Some (Val (IList (replace_nth (Z.to_nat j) target' items)))).
  { cbn [updateInDeep is_collection get].
    rewrite (list_get_in_range j target items Hj Htarget).
    rewrite Hut. cbn [set].
    rewrite list_set_in_range by (unfold size; lia). reflexivity. }
  destruct (updateInDeep_below cp _ u ast _ _ Hitems Hlist)
    as (ast1 & Hu1 & Hg1).
  assert (Hup1 : updateIn ast
                    ((cp ++ [KNum j]) ++ [KStr "value"; KStr "properties"]) u
                  = Some ast1).
  { unfold updateIn. rewrite <- app_assoc. cbn [app] in Hu1 |- *.
    now rewrite Hu1. }
  (* the removal *)
  set (items1 := replace_nth (Z.to_nat j) target' items) in *.
  assert (Hlen1 : List.length items1 = List.length items)
    by apply replace_nth_length.
  destruct (updateIn_at ast1 cp (call_delete (KNum i)) (IList items1)
              (IList (remove_nth (Z.to_nat i) items1)) Hg1)
    as (ast2 & Hu2 & Hg2).
  { unfold call_delete. cbn [is_collection remove].
    rewrite list_delete_in_range by (unfold size; lia). reflexivity. }
  exists target', ast2.
  assert (Hast1 : is_collection ast1 = true)
    by (apply (getIn_slot_collection _ _ _ Hg1); reflexivity).
  split; [|split; [exact Hgt|split; [exact Hg2|]]].
  - assert (Ht : (if isMoveUp
                  then match call_getIn ast
                               (push (cp ++ [KNum j])
                                  [KStr "value"; KStr "properties"]) with
                       | Some target0 => size_prop target0
                       | None => None
                       end
                  else Some (KNum 0))
                 = Some (KNum t)).
    { unfold t. destruct isMoveUp; [|reflexivity].
      unfold call_getIn, push, getIn. rewrite Hast.
      rewrite !getIn_slot_app, Hitems. cbn [getIn_slot get].
      rewrite (list_get_in_range j target items Hj Htarget).
      change (match get (KStr "value") target with
              | NotSet => NotSet
              | Val v' =>
                  match get (KStr "properties") v' with
                  | NotSet => NotSet
                  | Val v'0 => Val v'0
                  end
              end) with (getIn_slot target [KStr "value"; KStr "properties"]).
      rewrite Hprops. reflexivity. }
    unfold Editor.moveIntoNested. rewrite Ht.
    unfold call_updateIn, push. rewrite Hast.
    fold u. rewrite Hup1, Hast1, Hu2. cbn [option_map Js.number].
    replace (j + (if isMoveUp then 0 else -1)) with j'
      by (unfold j'; destruct isMoveUp; lia).
    reflexivity.
  - unfold getIn.
    change (cp ++ [KNum j'; KStr "value"; KStr "properties"; KNum t])
      with (cp ++ [KNum j'] ++ [KStr "value"; KStr "properties"] ++ [KNum t]).
    rewrite getIn_slot_app, Hg2, getIn_slot_app.
    assert (Hj' : 0 <= j' /\ nth_error (remove_nth (Z.to_nat i) items1)
                               (Z.to_nat j') = Some target').
    { unfold j', j, items1 in *. destruct isMoveUp.
      - split; [lia|]. rewrite nth_error_remove_nth_before by lia.
        apply nth_error_replace_nth. lia.
      - split; [lia|]. rewrite nth_error_remove_nth_after by lia.
        replace (S (Z.to_nat (i + 1 - 1))) with (Z.to_nat (i + 1)) by lia.
        apply nth_error_replace_nth. lia. }
    destruct Hj' as [Hj'0 Hj'n].
    cbn [getIn_slot get].
    rewrite (list_get_in_range j' target' _ Hj'0 Hj'n).
    rewrite getIn_slot_app, Hgt. cbn [getIn_slot get].
    unfold t, props'. destruct isMoveUp.
    + rewrite list_get_in_range with (x := item); [reflexivity|unfold size; lia|].
      unfold size. rewrite Nat2Z.id, nth_error_app2, Nat.sub_diag by lia.
      reflexivity.
    + reflexivity.
Qed.

(** C2: on [{ a: { b: 1 } }] with [b] selected, MOVE UP does not take
    [b] out of the nested object: the update function declines, and the
    commit leaves the history, the future and the effects as they were. *)
Theorem move_up_out_of_nested_object_is_declined
    (generate : js -> string) (parseFloat_toString : imm -> string) :
  Editor.moveSelected_fn UP Examples.nested Examples.path_of_b = Some None
  /\ Editor.moveSelected generate parseFloat_toString UP
       (Examples.fresh Examples.nested Examples.path_of_b)
     = Some (Examples.fresh Examples.nested Examples.path_of_b).
Proof. split; vm_compute; reflexivity. Qed.

End Move.

(** ** The properties at work on the sample documents *)

(** C3: MOVE on a property whose neighbour in the direction of the move
    is a property with an object as value does not put the property into
    that object.  On [{ a: 1, n: { c: 2 } }] with [a] selected and MOVE
    DOWN, and on [{ n: { c: 2 }, a: 1 }] with [a] selected and MOVE UP, [a]
    and [n] are properties and the value of [n] is an object, and the two
    change places: [a] stays in the outer collection, the properties of [n]
    stay [[c]] (the tree is neither [{ n: { c: 2, a: 1 } }] nor
    [{ n: { a: 1, c: 2 } }]), the selection is the new index of [a] in the
    outer collection, and the commit records that tree.  The test that guards the
    relocation reads the [type] of an Immutable Map, which has none. *)
Theorem move_next_to_nested_object_swaps_instead :
  (Babel.isObjectProperty (Immutable.toJS Examples.property_a) = true
   /\ Babel.isObjectProperty (Immutable.toJS Examples.property_n) = true
   /\ Babel.isObjectExpression
        (Immutable.toJS (Immutable.getIn Examples.property_n [KStr "value"]))
      = true
   /\ Babel.isObjectProperty (Immutable.raw Examples.property_a) = false)
  /\ (Immutable.getIn Examples.siblings Examples.first_property
      = Examples.property_a
      /\ Immutable.getIn Examples.siblings Examples.second_property
         = Examples.property_n
      /\ Editor.moveSelected_fn DOWN Examples.siblings Examples.first_property
         = Some (Some (mkUpdate (Some Examples.siblings_swapped)
                         (Some Examples.second_property))))
  /\ (Immutable.getIn Examples.siblings_swapped Examples.second_property
      = Examples.property_a
      /\ Immutable.getIn Examples.siblings_swapped Examples.first_property
         = Examples.property_n
      /\ Editor.moveSelected_fn UP Examples.siblings_swapped
           Examples.second_property
         = Some (Some (mkUpdate (Some Examples.siblings)
                         (Some Examples.first_property))))
  /\ (Immutable.getIn Examples.siblings_swapped
        (Examples.first_property ++ [KStr "value"; KStr "properties"])
      = IList [Examples.property_c]
      /\ Immutable.getIn Examples.siblings
           (Examples.second_property ++ [KStr "value"; KStr "properties"])
         = IList [Examples.property_c])
  /\ (Immutable.imm_is Examples.siblings_swapped Examples.a_at_tail_of_n
      = false
      /\ Immutable.imm_is Examples.siblings_swapped Examples.a_at_head_of_n
         = false
      /\ Immutable.imm_is Examples.siblings Examples.a_at_tail_of_n = false
      /\ Immutable.imm_is Examples.siblings Examples.a_at_head_of_n = false)
  /\ (exists e',
        Examples.addToHistory (Editor.moveSelected_fn DOWN)
          (Examples.fresh Examples.siblings Examples.first_property)
        = Some e'
        /\ history e'
           = [mkEditorState Examples.siblings_swapped Examples.second_property;
              mkEditorState Examples.siblings Examples.first_property]
        /\ contextValue e'
           = mkEditorState Examples.siblings_swapped
               Examples.second_property).
Proof.
  repeat split; try (vm_compute; reflexivity).
  eexists. repeat split; vm_compute; reflexivity.
Qed.

(** MOVE DOWN on the last element of [[7, 8]] is declined and records
    nothing. *)
Lemma commit_of_equal_state_witness :
  exists e',
    Examples.addToHistory (Editor.moveSelected_fn DOWN) Examples.last_of_two
    = Some e'
    /\ history e' = history Examples.last_of_two
    /\ future e' = future Examples.last_of_two
    /\ effects e' = effects Examples.last_of_two.
Proof.
  apply (commit_of_equal_state_records_nothing
           Examples.generate Examples.parseFloat_toString
           (Editor.moveSelected_fn DOWN) Examples.last_of_two
           Examples.last_of_two_head Examples.last_of_two_start None);
    vm_compute; reflexivity.
Defined.

(** INSERT on [{}], then [undo()] and [redo()]. *)
Lemma undo_then_redo_witness :
  exists e2,
    Editor.undo Examples.after_insert = Some e2
    /\ Editor.getCurrentEditorState Examples.after_insert
       = Some (mkEditorState
                 (Examples.document
                    [Babel.objectExpression
                       [Examples.named "" Babel.nullLiteral]])
                 (Examples.body0 ++ [KStr "properties"; KNum 0; KStr "key"]))
    /\ Editor.getCurrentEditorState e2
       = Some (mkEditorState Examples.empty_object Examples.body0)
    /\ Editor.getCurrentEditorState (Editor.redo e2)
       = Editor.getCurrentEditorState Examples.after_insert.
Proof.
  destruct (undo_then_redo_after_commit
              Examples.generate Examples.parseFloat_toString
              (Editor.insert_fn Babel.nullLiteral)
              Examples.on_empty_object Examples.after_insert
              (mkEditorState Examples.empty_object Examples.body0)
              (mkEditorState Examples.empty_object Examples.body0)
              (Some (mkUpdate
                 (Some (Examples.document
                          [Babel.objectExpression
                             [Examples.named "" Babel.nullLiteral]]))
                 (Some (Examples.body0
                        ++ [KStr "properties"; KNum 0; KStr "key"])))))
    as (e2 & Hundo & Hcur & Hprev & _ & Hredo & _);
    try (vm_compute; reflexivity).
  exists e2. repeat split; assumption.
Defined.

(** The relocation lines run upwards on [{ n: { c: 2 }, a: 1 }], from
    [a]: [a] ends up after [c]. *)
Lemma moveIntoNested_witness :
  exists target' newAST,
    Editor.moveIntoNested true Examples.siblings_swapped Examples.second_property
      (Examples.body0 ++ [KStr "properties"]) (KNum 1) Examples.property_a
      (Some 0) ((Examples.body0 ++ [KStr "properties"]) ++ [KNum 0])
    = Some (Some (mkUpdate (Some newAST)
              (Some (((Examples.body0 ++ [KStr "properties"])
                      ++ [KNum 0; KStr "value"; KStr "properties"; KNum 1])
                     ++ []))))
    /\ Immutable.getIn_slot target' [KStr "value"; KStr "properties"]
       = Val (IList [Examples.property_c; Examples.property_a])
    /\ Immutable.getIn_slot newAST (Examples.body0 ++ [KStr "properties"])
       = Val (IList [target'])
    /\ Immutable.getIn newAST
         ((Examples.body0 ++ [KStr "properties"])
          ++ [KNum 0; KStr "value"; KStr "properties"; KNum 1])
       = Examples.property_a.
Proof.
  apply (moveIntoNested_tail_up_head_down true Examples.siblings_swapped
           Examples.second_property (Examples.body0 ++ [KStr "properties"])
           [Examples.property_n; Examples.property_a] [Examples.property_c]
           Examples.property_a Examples.property_n 1);
    solve [reflexivity | lia].
Defined.

(** INSERT on [{}], the object selected, and on [[7, 8]], the 7 selected. *)
Lemma insert_fn_examples :
  (exists newAST,
     Editor.insert_fn Babel.nullLiteral Examples.empty_object Examples.body0
     = Some (Some (mkUpdate (Some newAST)
               (Some ((Examples.body0 ++ [KStr "properties"])
                      ++ [KNum 0; KStr "key"]))))
     /\ Immutable.getIn_slot newAST (Examples.body0 ++ [KStr "properties"])
        = Val (IList [Immutable.fromJS (Examples.named "" Babel.nullLiteral)])
     /\ Immutable.getIn newAST
          ((Examples.body0 ++ [KStr "properties"]) ++ [KNum 0])
        = Immutable.fromJS (Examples.named "" Babel.nullLiteral)
     /\ Immutable.getIn newAST
          ((Examples.body0 ++ [KStr "properties"]) ++ [KNum 0; KStr "key"])
        = Immutable.fromJS (Babel.stringLiteral "")
     /\ Immutable.getIn newAST
          ((Examples.body0 ++ [KStr "properties"]) ++ [KNum 0; KStr "value"])
        = Immutable.fromJS Babel.nullLiteral)
  /\ (exists newAST,
        Editor.insert_fn Babel.nullLiteral Examples.two_numbers
          (Examples.body0 ++ [KStr "elements"; KNum 0])
        = Some (Some (mkUpdate (Some newAST)
                  (Some ((Examples.body0 ++ [KStr "elements"]) ++ [KNum 1]))))
        /\ Immutable.getIn_slot newAST (Examples.body0 ++ [KStr "elements"])
           = Val (IList [Immutable.fromJS (Babel.numericLiteral 7);
                         Immutable.fromJS Babel.nullLiteral;
                         Immutable.fromJS (Babel.numericLiteral 8)])
        /\ Immutable.getIn newAST
             ((Examples.body0 ++ [KStr "elements"]) ++ [KNum 1])
           = Immutable.fromJS Babel.nullLiteral).
Proof.
  split.
  - apply (proj1 (insert_fn_within_collection Babel.nullLiteral
             Examples.empty_object Examples.body0
             (Examples.body0 ++ [KStr "properties"]) [] 0
             eq_refl eq_refl eq_refl (conj (Z.le_refl 0) (Z.le_refl 0)))).
    reflexivity.
  - apply (proj2 (insert_fn_within_collection Babel.nullLiteral
             Examples.two_numbers
             (Examples.body0 ++ [KStr "elements"; KNum 0])
             (Examples.body0 ++ [KStr "elements"])
             [Immutable.fromJS (Babel.numericLiteral 7);
              Immutable.fromJS (Babel.numericLiteral 8)] 1
             eq_refl eq_refl eq_refl
             (conj (Zle_0_pos 1) (Z.le_succ_diag_r 1)))).
    reflexivity.
Defined.

(** Copy at the end of [[7, 8]] exports the array; copy and cut on the
    number of the document [5] do nothing. *)
Lemma copy_witness :
  Editor.handleCopy Examples.generate
    (Examples.fresh Examples.two_numbers
       (Examples.body0 ++ [KStr "elements"; KStr "end"]))
  = Some (mkEditor []
            [mkEditorState Examples.two_numbers
               (Examples.body0 ++ [KStr "elements"; KStr "end"])]
            true
            (mkEditorState Examples.two_numbers
               (Examples.body0 ++ [KStr "elements"; KStr "end"]))
            [Generate (Babel.arrayExpression
                         [Babel.numericLiteral 7; Babel.numericLiteral 8]);
             SetData "text/plain" "ArrayExpression";
             PreventDefault])
  /\ Editor.handleCopy Examples.generate
       (Examples.fresh Examples.five Examples.body0)
     = Some (Examples.fresh Examples.five Examples.body0)
  /\ Editor.handleCut Examples.generate Examples.parseFloat_toString
       Examples.navigate (Examples.fresh Examples.five Examples.body0)
     = Some (Examples.fresh Examples.five Examples.body0).
Proof.
  split.
  - apply (proj1 (copy_backs_off_from_end_and_skips_leaves
                    Examples.generate Examples.parseFloat_toString
                    Examples.navigate
                    (Examples.fresh Examples.two_numbers
                       (Examples.body0 ++ [KStr "elements"; KStr "end"])))
             (mkEditorState Examples.two_numbers
                (Examples.body0 ++ [KStr "elements"; KStr "end"])));
      reflexivity.
  - apply (proj2 (copy_backs_off_from_end_and_skips_leaves
                    Examples.generate Examples.parseFloat_toString
                    Examples.navigate
                    (Examples.fresh Examples.five Examples.body0))
             (Babel.numericLiteral 5)); reflexivity.
Defined.

(** A commit on the document [5], the number selected, works on the tree
    in which the value is the string ["5"]. *)
Lemma commit_repairs_witness :
  exists start result,
    Examples.prepare (mkEditorState Examples.five Examples.body0) = Some start
    /\ Editor.moveSelected_fn UP (ast start) (selected start) = Some result
    /\ selected start = Examples.body0
    /\ Immutable.getIn (ast start) (Examples.body0 ++ [KStr "value"])
       = IStr "5".
Proof.
  destruct (commit_repairs_selection_and_number
              Examples.generate Examples.parseFloat_toString
              (Editor.moveSelected_fn UP)
              (Examples.fresh Examples.five Examples.body0)
              Examples.after_move_on_five
              (mkEditorState Examples.five Examples.body0)
              eq_refl)
    as (start & result & Hp & Hf & Hsel & _ & Hnum).
  - vm_compute. reflexivity.
  - exists start, result. split; [exact Hp|]. split; [exact Hf|].
    split; [exact Hsel|].
    assert (Hs : selected start = Examples.body0) by exact Hsel.
    rewrite <- Hs.
    destruct (Hnum [(KStr "type", IStr "NumericLiteral"); (KStr "value", INum 5)])
      as [_ Hv].
    + rewrite Hs. reflexivity.
    + reflexivity.
    + rewrite Hv, Hs. reflexivity.
Defined.

(** INSERT on [{}] notifies once; [undo()] and [redo()] after it are
    silent. *)
Lemma notify_witness :
  effects Examples.after_insert
  = [Generate (Immutable.toJS
                 (Examples.document
                    [Babel.objectExpression
                       [Examples.named "" Babel.nullLiteral]]));
     OnChange "File"]
  /\ (forall e', Editor.undo Examples.after_insert = Some e' ->
                 effects e' = effects Examples.after_insert)
  /\ effects (Editor.redo Examples.after_insert) = effects Examples.after_insert.
Proof.
  destruct (only_tree_changing_commits_notify
              Examples.generate Examples.parseFloat_toString)
    as (Hundo & Hredo & Hcommit).
  split; [reflexivity|]. split; [apply Hundo|apply Hredo].
Defined.

(** * Further properties of the component *)

(** ** Writing below a path *)
Module TreeFacts.
Import Immutable ImmutableFacts.

(** The tree [v] with the value at the path [p] replaced by [x]; nothing
    happens where the path does not resolve. *)
Fixpoint put (p : path) (x : imm) (v : imm) : imm :=
  match p with
  | [] => x
  | k :: p' =>
      match get k v with
      | Val c => set k (put p' x c) v
      | NotSet => v
      end
  end.

(** [updateIn] below a path that resolves is [put]. *)
Lemma updateInDeep_put (p q : path) (u : imm -> option slot) :
  forall v x x',
    getIn_slot v p = Val x ->
    updateInDeep (Val x) q u = Some (Val x') ->
    updateInDeep (Val v) (p ++ q) u = Some (Val (put p x' v)).
Proof.
  induction p as [|k p IH]; intros v x x' Hget Hupd; simpl in *.
  - now injection Hget as ->.
  - destruct (get k v) as [|c] eqn:Hk; [discriminate|].
    rewrite (get_Val_collection _ _ _ Hk).
    now rewrite (IH _ _ _ Hget Hupd).
Qed.

Lemma updateIn_put (v : imm) (p : path) (u : imm -> option slot) (x x' : imm) :
  getIn_slot v p = Val x ->
  u x = Some (Val x') ->
  updateIn v p u = Some (put p x' v).
Proof.
  intros Hget Hu.
  assert (Hleaf : updateInDeep (Val x) [] u = Some (Val x')).
  { simpl. rewrite Hu. now destruct x'. }
  pose proof (updateInDeep_put p [] u v x x' Hget Hleaf) as H.
  rewrite app_nil_r in H. unfold updateIn. now rewrite H.
Qed.

Lemma getIn_slot_put (p : path) (x : imm) :
  forall v old, getIn_slot v p = Val old -> getIn_slot (put p x v) p = Val x.
Proof.
  induction p as [|k p IH]; intros v old H; simpl in *; auto.
  destruct (get k v) as [|c] eqn:Hk; [discriminate|].
  rewrite (get_set_same _ _ _ _ Hk). eauto.
Qed.

Lemma map_set_same (k : key) (c : imm) (m : list (key * imm)) :
  map_get k m = Val c -> map_set k c m = m.
Proof.
  induction m as [|[k' v'] m IH]; simpl; [discriminate|].
  destruct (key_eqb k k') eqn:E.
  - intros [= ->]. destruct k, k'; simpl in E; try discriminate.
    + apply String.eqb_eq in E. now subst.
    + apply Z.eqb_eq in E. now subst.
    + reflexivity.
    + reflexivity.
  - intros H. now rewrite IH.
Qed.

Lemma map_set_set (k : key) (a b : imm) (m : list (key * imm)) :
  map_set k b (map_set k a m) = map_set k b m.
Proof.
  induction m as [|[k' v'] m IH]; simpl.
  - now rewrite key_eqb_refl.
  - destruct (key_eqb k k') eqn:E; simpl.
    + now rewrite key_eqb_refl.
    + now rewrite E, IH.
Qed.

Lemma replace_nth_same (n : nat) (c : imm) (l : list imm) :
  nth_error l n = Some c -> replace_nth n c l = l.
Proof.
  revert n; induction l as [|y l IH]; intros [|n] H; simpl in *;
    try discriminate.
  - now injection H as ->.
  - now rewrite IH.
Qed.

Lemma replace_nth_replace_nth (n : nat) (a b : imm) (l : list imm) :
  replace_nth n b (replace_nth n a l) = replace_nth n b l.
Proof.
  revert n; induction l as [|y l IH]; intros [|n]; simpl; auto.
  now rewrite IH.
Qed.

Lemma list_set_found (k : key) (x old : imm) (l : list imm) :
  list_get k l = Val old ->
  exists i, 0 <= i < size l /\ nth_error l (Z.to_nat i) = Some old
            /\ forall y l', List.length l' = List.length l ->
                            list_set k y l' = replace_nth (Z.to_nat i) y l'.
Proof.
  intros H. destruct (list_get_Val _ _ _ H) as (i & Hw & Hr & Hn).
  exists i. repeat split; try lia; auto.
  intros y l' Hlen. unfold list_set.
  rewrite (wrapIndex_size k l l' Hlen), Hw.
  unfold size. rewrite Hlen. fold (size l).
  destruct (i <? 0) eqn:E0; [lia|].
  destruct (i <? size l) eqn:E1; [reflexivity|lia].
Qed.

Lemma set_same (k : key) (c v : imm) : get k v = Val c -> set k c v = v.
Proof.
  destruct v; simpl; try discriminate; intros H.
  - now rewrite map_set_same.
  - destruct (list_set_found k c c items H) as (i & _ & Hn & Hset).
    rewrite (Hset c items eq_refl). now rewrite replace_nth_same.
Qed.

Lemma set_set (k : key) (a b old v : imm) :
  get k v = Val old -> set k b (set k a v) = set k b v.
Proof.
  destruct v; simpl; try discriminate; intros H.
  - now rewrite map_set_set.
  - destruct (list_set_found k a old items H) as (i & _ & _ & Hset).
    rewrite (Hset a items eq_refl), (Hset b items eq_refl).
    rewrite (Hset b _ (replace_nth_length _ _ _)).
    now rewrite replace_nth_replace_nth.
Qed.

(** Putting back what was there changes nothing, and of two writes at
    the same path the second one counts. *)
Lemma put_same (p : path) :
  forall v old, getIn_slot v p = Val old -> put p old v = v.
Proof.
  induction p as [|k p IH]; intros v old H; simpl in *.
  - now injection H as ->.
  - destruct (get k v) as [|c] eqn:Hk; [discriminate|].
    rewrite (IH _ _ H). now apply set_same.
Qed.

Lemma put_put (p : path) (x y : imm) :
  forall v old, getIn_slot v p = Val old -> put p y (put p x v) = put p y v.
Proof.
  induction p as [|k p IH]; intros v old H; simpl in *; auto.
  destruct (get k v) as [|c] eqn:Hk; [discriminate|].
  rewrite (get_set_same _ _ _ _ Hk), (IH _ _ H).
  eapply set_set; eauto.
Qed.



(** *** Searching a path from the end *)

Lemma findLastIndex_from_none (pred : key -> bool) (p : path) :
  forall i, forallb (fun k => negb (pred k)) p = true ->
            findLastIndex_from i pred p = -1.
Proof.
  induction p as [|k p IH]; intros i H; simpl in *; auto.
  apply andb_true_iff in H. destruct H as [Hk Hp].
  rewrite (IH _ Hp). simpl. apply negb_true_iff in Hk. now rewrite Hk.
Qed.

Lemma findLastIndex_from_last (pred : key -> bool) (p : path) (k : key)
    (rest : path) :
  forall i, 0 <= i -> pred k = true ->
            forallb (fun x => negb (pred x)) rest = true ->
            findLastIndex_from i pred (p ++ k :: rest)
            = i + Z.of_nat (List.length p).
Proof.
  induction p as [|a p IH]; intros i Hi Hk Hrest.
  - simpl. rewrite (findLastIndex_from_none pred rest (i + 1) Hrest).
    simpl. rewrite Hk. lia.
  - cbn [app findLastIndex_from List.length].
    rewrite (IH (i + 1)) by (auto; lia).
    destruct (0 <=? i + 1 + Z.of_nat (List.length p)) eqn:E; lia.
Qed.


Lemma findLastIndex_from_split (pred : key -> bool) (p : path) :
  forall i, 0 <= i ->
    (findLastIndex_from i pred p = -1
     /\ forallb (fun k => negb (pred k)) p = true)
    \/ (exists pre k post,
          p = pre ++ k :: post /\ pred k = true
          /\ forallb (fun x => negb (pred x)) post = true
          /\ findLastIndex_from i pred p = i + Z.of_nat (List.length pre)).
Proof.
  induction p as [|a p IH]; intros i Hi; [left; split; reflexivity|].
  cbn [findLastIndex_from].
  destruct (IH (i + 1)) as [[Hnone Hall]|(pre & k & post & -> & Hk & Hpost & Hr)];
    [lia| |].
  - rewrite Hnone. cbn [Z.leb Z.compare]. destruct (pred a) eqn:Ha.
    + right. exists [], a, p. repeat split; auto. simpl. lia.
    + left. split; [reflexivity|]. simpl. now rewrite Ha.
  - right. exists (a :: pre), k, post. rewrite Hr.
    destruct (0 <=? i + 1 + Z.of_nat (List.length pre)) eqn:E;
      [|apply Z.leb_gt in E; lia].
    repeat split; auto. cbn [List.length]. lia.
Qed.

Lemma slice_to_prefix (p q : path) (n : Z) :
  n = path_size p -> slice_to n (p ++ q) = p.
Proof.
  intros ->. unfold slice_to, path_size.
  destruct (Z.of_nat (List.length p) <? 0) eqn:E;
    [apply Z.ltb_lt in E; lia|].
  rewrite Nat2Z.id, firstn_app, Nat.sub_diag, firstn_all. simpl.
  apply app_nil_r.
Qed.



(** *** Lists *)

Lemma remove_nth_inserted (n : nat) (x : imm) (l : list imm) :
  (n <= List.length l)%nat ->
  remove_nth n (firstn n l ++ x :: skipn n l) = l.
Proof.
  revert n; induction l as [|y l IH]; intros [|n] H; simpl in *; auto;
    try lia.
  now rewrite IH by lia.
Qed.



Lemma last_is_snoc (s : string) (p : path) (k : key) :
  last_is s (p ++ [k])
  = match k with KStr t => String.eqb s t | _ => false end.
Proof.
  unfold last_is, path_last. rewrite map_app. cbn [map].
  now rewrite last_last.
Qed.




End TreeFacts.

(** ** Deleting, and deleting what was inserted *)
Section Delete.
Import Immutable Babel ImmutableFacts TreeFacts.

Variable navigate : VerticalDirection -> imm -> path -> path.

Local Notation deleteSelected_fn := (Editor.deleteSelected_fn navigate).

Lemma deleteIn_element (ast : imm) (cp : path) (items : list imm) (i : Z) :
  getIn_slot ast cp = Val (IList items) ->
  0 <= i < size items ->
  call_deleteIn ast (cp ++ [KNum i])
  = Some (put cp (IList (remove_nth (Z.to_nat i) items)) ast).
Proof.
  intros Hitems Hi.
  assert (Hast : is_collection ast = true)
    by (apply (getIn_slot_collection _ _ _ Hitems); reflexivity).
  unfold call_deleteIn, deleteIn, updateIn. rewrite Hast.
  assert (Hi' : (Z.to_nat i < List.length items)%nat) by (unfold size in Hi; lia).
  destruct (nth_error items (Z.to_nat i)) as [w|] eqn:Hw;
    [|apply nth_error_None in Hw; lia].
  rewrite (updateInDeep_put cp [KNum i] (fun _ => Some NotSet) ast
             (IList items) (IList (remove_nth (Z.to_nat i) items)) Hitems).
  - reflexivity.
  - cbn [updateInDeep is_collection get].
    rewrite (list_get_in_range i w items (proj1 Hi) Hw).
    cbn [slot_value remove]. now rewrite list_delete_in_range.
Qed.

Lemma deleteSelected_fn_on_element (ast : imm) (cp rest : path)
    (items : list imm) (i : Z) :
  getIn_slot ast cp = Val (IList items) ->
  0 <= i < size items ->
  forallb (fun k => negb (Editor.is_number_key k)) rest = true ->
  (path_size (cp ++ KNum i :: rest) =? 2)
  && last_is "end" (cp ++ KNum i :: rest) = false ->
  let selected := cp ++ KNum i :: rest in
  let newAST := put cp (IList (remove_nth (Z.to_nat i) items)) ast in
  deleteSelected_fn ast selected
  = Some (Some (mkUpdate (Some newAST)
                  (Some (if last_is "end" selected then []
                         else navigate DOWN newAST (navigate UP ast selected)))))
  /\ getIn_slot newAST cp = Val (IList (remove_nth (Z.to_nat i) items)).
Proof.
  intros Hitems Hi Hrest Hroot selected newAST.
  split; [|eapply getIn_slot_put; eauto].
  unfold Editor.deleteSelected_fn. fold selected.
  assert (Hidx : findLastIndex Editor.is_number_key selected = path_size cp).
  { unfold findLastIndex, selected.
    now rewrite findLastIndex_from_last by (auto; lia). }
  rewrite Hidx.
  assert (Hslice : slice_to (1 + path_size cp) selected = cp ++ [KNum i]).
  { unfold selected.
    change (cp ++ KNum i :: rest) with (cp ++ [KNum i] ++ rest).
    rewrite app_assoc. apply slice_to_prefix.
    unfold path_size. rewrite length_app. cbn [List.length]. lia. }
  rewrite Hslice, (deleteIn_element ast cp items i Hitems Hi).
  fold newAST. fold selected in Hroot. rewrite Hroot.
  destruct selected eqn:Hsel; [destruct cp; discriminate|].
  reflexivity.
Qed.

(** X1: [deleteSelected] takes the element at the deepest numeric step of
    the selection out of its collection and changes nothing else in the
    tree; the new selection is found by navigating UP in the old tree and
    DOWN in the new one, or is empty when the selection ended in ["end"]. *)
Theorem deleteSelected_removes_the_element (ast : imm) (cp rest : path)
    (items : list imm) (i : Z) :
  getIn_slot ast cp = Val (IList items) ->
  0 <= i < size items ->
  forallb (fun k => negb (Editor.is_number_key k)) rest = true ->
  (path_size (cp ++ KNum i :: rest) =? 2)
  && last_is "end" (cp ++ KNum i :: rest) = false ->
  let selected := cp ++ KNum i :: rest in
  let newAST := put cp (IList (remove_nth (Z.to_nat i) items)) ast in
  deleteSelected_fn ast selected
  = Some (Some (mkUpdate (Some newAST)
                  (Some (if last_is "end" selected then []
                         else navigate DOWN newAST (navigate UP ast selected)))))
  /\ getIn_slot newAST cp = Val (IList (remove_nth (Z.to_nat i) items)).
Proof. exact (deleteSelected_fn_on_element ast cp rest items i). Qed.

(** X2: deleting on the empty selection replaces the whole document by a
    NullLiteral and leaves the selection empty, whatever the tree held; so
    does deleting on a two-step selection that ends in ["end"]. *)
Theorem deleteSelected_at_the_root (ast : imm) (selected : path) :
  is_collection ast = true ->
  selected = [] \/ (exists k, selected = [k; KStr "end"]) ->
  deleteSelected_fn ast selected
  = Some (Some (mkUpdate (Some (fromJS nullLiteral)) (Some []))).
Proof.
  intros Hast Hsel. unfold Editor.deleteSelected_fn, call_deleteIn.
  rewrite Hast.
  destruct (deleteIn ast _) as [newAST|] eqn:Hdel.
  - destruct Hsel as [->|[k ->]]; reflexivity.
  - exfalso. unfold deleteIn, updateIn in Hdel.
    destruct Hsel as [->|[k ->]].
    + simpl in Hdel. discriminate.
    + destruct k; simpl in Hdel; try (rewrite Hast in Hdel);
        try discriminate.
Qed.

(** What [insert] returns when its index lies within the collection. *)
Lemma insert_fn_result (node : js) (ast : imm) (selected cp : path)
    (items : list imm) (j : Z) :
  Editor.getClosestCollectionPath ast
    (if last_is "end" selected then slice_to (-3) selected else selected)
  = Some cp ->
  Editor.insert_index selected cp = KNum j ->
  getIn_slot ast cp = Val (IList items) ->
  0 <= j <= size items ->
  let collectionNode := toJS (getIn ast (butLast cp)) in
  let isArray := isArrayExpression collectionNode in
  isArray || isObjectExpression collectionNode = true ->
  let x := if isArray then fromJS node
           else fromJS (objectProperty (stringLiteral "") node) in
  Editor.insert_fn node ast selected
  = Some (Some (mkUpdate
       (Some (put cp (IList (firstn (Z.to_nat j) items
                             ++ x :: skipn (Z.to_nat j) items)) ast))
       (Some (if isArray then cp ++ [KNum j]
              else (cp ++ [KNum j]) ++ [KStr "key"])))).
Proof.
  intros Hcp Hidx Hitems Hj collectionNode isArray Hkind x.
  assert (Hast : is_collection ast = true)
    by (apply (getIn_slot_collection _ _ _ Hitems); reflexivity).
  assert (Hnode : is_collection (getIn ast (butLast cp)) = true).
  { apply orb_true_iff in Hkind.
    destruct Hkind as [H|H]; apply (is_node_toJS_collection _ _ H). }
  unfold Editor.insert_fn. rewrite Hcp, Hidx.
  unfold call_getIn, call_toJS, call_updateIn, push. rewrite Hast, Hnode.
  fold collectionNode. fold isArray.
  assert (Hnone : negb isArray && negb (isObjectExpression collectionNode)
                  = false).
  { destruct isArray; [reflexivity|]. simpl in *. now rewrite Hkind. }
  rewrite Hnone. fold x.
  rewrite (updateIn_put ast cp (call_insert (KNum j) x) (IList items)
             (IList (firstn (Z.to_nat j) items ++ x :: skipn (Z.to_nat j) items))
             Hitems).
  - reflexivity.
  - unfold call_insert. now rewrite list_insert_in_range.
Qed.

(** X3: deleting right after an insertion gives back the tree as it was
    before the insertion, in an array as in an object (where the selection
    is on the key of the new property). *)
Theorem delete_after_insert_restores_the_tree (node : js) (ast : imm)
    (selected cp : path) (items : list imm) (j : Z) :
  Editor.getClosestCollectionPath ast
    (if last_is "end" selected then slice_to (-3) selected else selected)
  = Some cp ->
  Editor.insert_index selected cp = KNum j ->
  getIn_slot ast cp = Val (IList items) ->
  0 <= j <= size items ->
  isArrayExpression (toJS (getIn ast (butLast cp)))
  || isObjectExpression (toJS (getIn ast (butLast cp))) = true ->
  exists inserted selected',
    Editor.insert_fn node ast selected
    = Some (Some (mkUpdate (Some inserted) (Some selected')))
    /\ deleteSelected_fn inserted selected'
       = Some (Some (mkUpdate (Some ast)
                       (Some (navigate DOWN ast
                                (navigate UP inserted selected'))))).
Proof.
  intros Hcp Hidx Hitems Hj Hkind.
  pose proof (insert_fn_result node ast selected cp items j
                Hcp Hidx Hitems Hj Hkind) as Hins.
  cbv zeta in Hins.
  set (x := if isArrayExpression (toJS (getIn ast (butLast cp)))
            then fromJS node
            else fromJS (objectProperty (stringLiteral "") node)) in *.
  set (items' := firstn (Z.to_nat j) items ++ x :: skipn (Z.to_nat j) items)
    in *.
  set (inserted := put cp (IList items') ast) in *.
  assert (Hlen : size items' = size items + 1).
  { unfold size, items'. rewrite length_app, length_firstn. simpl.
    rewrite length_skipn. unfold size in Hj. lia. }
  assert (Hget : getIn_slot inserted cp = Val (IList items'))
    by (eapply getIn_slot_put; eauto).
  assert (Hback : put cp (IList (remove_nth (Z.to_nat j) items')) inserted
                  = ast).
  { unfold items' at 1. rewrite remove_nth_inserted by (unfold size in Hj; lia).
    unfold inserted. rewrite (put_put cp _ _ ast _ Hitems).
    apply put_same. exact Hitems. }
  eexists inserted, _. split; [exact Hins|].
  destruct (isArrayExpression (toJS (getIn ast (butLast cp)))).
  - destruct (deleteSelected_fn_on_element inserted cp [] items' j)
      as [Hdel _]; auto; try lia.
    { rewrite last_is_snoc. apply andb_false_r. }
    cbv zeta in Hdel. rewrite Hback in Hdel. rewrite Hdel.
    now rewrite last_is_snoc.
  - rewrite <- app_assoc. cbn [app].
    assert (Hlast : last_is "end" (cp ++ [KNum j; KStr "key"]) = false).
    { change (cp ++ [KNum j; KStr "key"]) with (cp ++ [KNum j] ++ [KStr "key"]).
      now rewrite app_assoc, last_is_snoc. }
    destruct (deleteSelected_fn_on_element inserted cp [KStr "key"]
                items' j) as [Hdel _]; auto; try lia.
    { rewrite Hlast. apply andb_false_r. }
    cbv zeta in Hdel. rewrite Hback in Hdel. rewrite Hdel.
    now rewrite Hlast.
Qed.

End Delete.

(** ** Moving an element among its siblings *)
Section Swap.
Import Immutable Babel ImmutableFacts TreeFacts.









(** X7: the collection path found for a selection is the selection
    followed by [properties] or [elements] when the selected node is itself
    an object or an array; otherwise it is the selection up to and
    including its last [elements] or [properties] step, and the empty path
    when the selection has no such step. *)
Theorem getClosestCollectionPath_shape (ast : imm) (selected cp : path) :
  Editor.getClosestCollectionPath ast selected = Some cp ->
  exists node,
    getIn ast selected = node /\ is_collection node = true
    /\ ((isObjectExpression (toJS node) = true
         /\ cp = selected ++ [KStr "properties"])
        \/ (isObjectExpression (toJS node) = false
            /\ isArrayExpression (toJS node) = true
            /\ cp = selected ++ [KStr "elements"])
        \/ (isObjectExpression (toJS node) = false
            /\ isArrayExpression (toJS node) = false
            /\ ((cp = []
                 /\ forallb (fun k => negb (Editor.is_collection_key k)) selected
                    = true)
                \/ exists pre k post,
                     selected = pre ++ k :: post /\ cp = pre ++ [k]
                     /\ Editor.is_collection_key k = true
                     /\ forallb (fun x => negb (Editor.is_collection_key x)) post
                        = true))).
Proof.
  unfold Editor.getClosestCollectionPath, call_getIn, call_toJS.
  intros H. destruct (is_collection ast); [|discriminate].
  exists (getIn ast selected). split; [reflexivity|].
  destruct (is_collection (getIn ast selected)); [|discriminate].
  split; [reflexivity|].
  destruct (isObjectExpression (toJS (getIn ast selected))).
  { left. injection H as <-. auto. }
  destruct (isArrayExpression (toJS (getIn ast selected))).
  { right. left. injection H as <-. auto. }
  right. right. split; [reflexivity|]. split; [reflexivity|].
  injection H as <-. unfold findLastIndex.
  destruct (findLastIndex_from_split Editor.is_collection_key selected 0)
    as [[Hnone Hall]|(pre & k & post & Hsel & Hk & Hpost & Hr)]; [lia| |].
  - left. rewrite Hnone. split; [reflexivity|assumption].
  - right. exists pre, k, post. rewrite Hr. repeat split; auto.
    rewrite Hsel.
    change (pre ++ k :: post) with (pre ++ [k] ++ post).
    rewrite app_assoc. apply slice_to_prefix.
    unfold path_size. rewrite length_app. cbn [List.length]. lia.
Qed.

End Swap.

(** ** Value equality *)
Module IsFacts.
Import Immutable ImmutableFacts.

(** No Map of the tree has the same key twice, as in any Immutable Map. *)
Fixpoint keys_distinct (es : list (key * imm)) : bool :=
  match es with
  | [] => true
  | (k, _) :: es' =>
      match map_get k es' with
      | NotSet => keys_distinct es'
      | Val _ => false
      end
  end.

Fixpoint wf (v : imm) : bool :=
  match v with
  | IMap es =>
      keys_distinct es &&
      (fix all (es : list (key * imm)) : bool :=
         match es with
         | [] => true
         | (_, x) :: es' => wf x && all es'
         end) es
  | IList xs =>
      (fix all (xs : list imm) : bool :=
         match xs with
         | [] => true
         | x :: xs' => wf x && all xs'
         end) xs
  | _ => true
  end.

(** Induction on trees, with the hypothesis for every entry and item. *)
Definition imm_nested_ind (P : imm -> Prop)
    (Hundef : P IUndef) (Hnull : P INull)
    (Hbool : forall b, P (IBool b)) (Hnum : forall n, P (INum n))
    (Hstr : forall s, P (IStr s))
    (Hmap : forall es, Forall (fun e => P (snd e)) es -> P (IMap es))
    (Hlist : forall xs, Forall P xs -> P (IList xs)) : forall v, P v :=
  fix F (v : imm) : P v :=
    match v with
    | IUndef => Hundef
    | INull => Hnull
    | IBool b => Hbool b
    | INum n => Hnum n
    | IStr s => Hstr s
    | IMap es =>
        Hmap es
          ((fix G (es : list (key * imm)) : Forall (fun e => P (snd e)) es :=
              match es with
              | [] => Forall_nil _
              | e :: es' => Forall_cons e (F (snd e)) (G es')
              end) es)
    | IList xs =>
        Hlist xs
          ((fix G (xs : list imm) : Forall P xs :=
              match xs with
              | [] => Forall_nil _
              | x :: xs' => Forall_cons x (F x) (G xs')
              end) xs)
    end.

Lemma key_eqb_eq (a b : key) : key_eqb a b = true -> a = b.
Proof.
  destruct a, b; simpl; try discriminate; intros H; auto.
  - apply String.eqb_eq in H. now subst.
  - apply Z.eqb_eq in H. now subst.
Qed.

(** With distinct keys, every entry is the one its key finds. *)
Lemma map_get_own_entry (pre : list (key * imm)) (k : key) (x : imm)
    (suf : list (key * imm)) :
  keys_distinct (pre ++ (k, x) :: suf) = true ->
  map_get k (pre ++ (k, x) :: suf) = Val x.
Proof.
  induction pre as [|[k' v'] pre IH]; intros H.
  - simpl. now rewrite key_eqb_refl.
  - cbn [app keys_distinct] in H.
    destruct (map_get k' (pre ++ (k, x) :: suf)) eqn:Hk'; [|discriminate].
    cbn [app map_get]. destruct (key_eqb k k') eqn:E.
    + apply key_eqb_eq in E. subst k'. rewrite (IH H) in Hk'. discriminate.
    + exact (IH H).
Qed.

(** [Immutable.is] holds between a tree and itself. *)
Lemma imm_is_refl (v : imm) : wf v = true -> imm_is v v = true.
Proof.
  induction v as [| | b | n | s | es IH | xs IH] using imm_nested_ind;
    intros Hwf; simpl; auto.
  - now destruct b.
  - apply Z.eqb_refl.
  - apply String.eqb_refl.
  - cbn [wf] in Hwf. apply andb_true_iff in Hwf. destruct Hwf as [Hkeys Hall].
    rewrite Nat.eqb_refl. cbn [andb].
    assert (Hgo : forall pre suf,
               es = pre ++ suf ->
               (fix go (xs : list (key * imm)) : bool :=
                  match xs with
                  | [] => true
                  | (k, x) :: xs' =>
                      match map_get k es with
                      | Val y => imm_is x y && go xs'
                      | NotSet => false
                      end
                  end) suf = true).
    { intros pre suf. revert pre.
      induction suf as [|[k x] suf IHsuf]; intros pre Hes; [reflexivity|].
      assert (Hget : map_get k es = Val x)
        by (rewrite Hes; apply map_get_own_entry; now rewrite <- Hes).
      rewrite Hget.
      assert (Hx : imm_is x x = true).
      { rewrite Forall_forall in IH. apply (IH (k, x)).
        - rewrite Hes. apply in_or_app. right. left. reflexivity.
        - clear - Hall Hes. subst es.
          induction pre as [|[k' v'] pre IHpre]; simpl in Hall.
          + now apply andb_true_iff in Hall.
          + apply andb_true_iff in Hall. now apply IHpre. }
      rewrite Hx. cbn [andb].
      apply (IHsuf (pre ++ [(k, x)])). now rewrite <- app_assoc. }
    exact (Hgo [] es eq_refl).
  - cbn [wf] in Hwf. induction xs as [|x xs IHxs]; [reflexivity|].
    apply andb_true_iff in Hwf. destruct Hwf as [Hx Hrest].
    inversion IH as [|? ? Px Pxs]; subst.
    rewrite (Px Hx). cbn [andb]. exact (IHxs Pxs Hrest).
Qed.

Lemma path_is_refl (p : path) : path_is p p = true.
Proof.
  induction p as [|k p IH]; simpl; auto. now rewrite key_eqb_refl.
Qed.

Lemma path_is_eq (p q : path) : path_is p q = true -> p = q.
Proof.
  revert q; induction p as [|a p IH]; intros [|b q] H; simpl in H;
    try discriminate; auto.
  apply andb_true_iff in H. destruct H as [Hab Hpq].
  now rewrite (key_eqb_eq _ _ Hab), (IH _ Hpq).
Qed.

(** *** Writes keep the keys distinct *)

Lemma wf_map (es : list (key * imm)) :
  wf (IMap es) = keys_distinct es && forallb (fun e => wf (snd e)) es.
Proof.
  cbn [wf]. f_equal. induction es as [|[k x] es IH]; [reflexivity|].
  cbn [forallb snd]. now rewrite <- IH.
Qed.

Lemma wf_list (xs : list imm) : wf (IList xs) = forallb wf xs.
Proof.
  cbn [wf]. induction xs as [|x xs IH]; [reflexivity|].
  cbn [forallb]. now rewrite <- IH.
Qed.

Lemma key_eqb_sym (a b : key) : key_eqb a b = key_eqb b a.
Proof.
  destruct a, b; simpl; auto using String.eqb_sym, Z.eqb_sym.
Qed.

Lemma map_get_set_other (k k' : key) (x : imm) (m : list (key * imm)) :
  key_eqb k' k = false -> map_get k' (map_set k x m) = map_get k' m.
Proof.
  intros Hne. induction m as [|[k1 v1] m IH]; simpl.
  - now rewrite Hne.
  - destruct (key_eqb k k1) eqn:E; simpl.
    + apply key_eqb_eq in E. subst k1. now rewrite Hne.
    + now rewrite IH.
Qed.

Lemma keys_distinct_set (k : key) (x : imm) (m : list (key * imm)) :
  keys_distinct m = true -> keys_distinct (map_set k x m) = true.
Proof.
  induction m as [|[k1 v1] m IH]; intros H; [reflexivity|].
  cbn [keys_distinct] in H.
  destruct (map_get k1 m) eqn:H1; [|discriminate].
  cbn [map_set]. destruct (key_eqb k k1) eqn:E.
  - apply key_eqb_eq in E. subst k1. cbn [keys_distinct]. now rewrite H1.
  - cbn [keys_distinct]. rewrite map_get_set_other, H1; auto.
    now rewrite key_eqb_sym.
Qed.

Lemma forallb_wf_set (k : key) (x : imm) (m : list (key * imm)) :
  wf x = true -> forallb (fun e => wf (snd e)) m = true ->
  forallb (fun e => wf (snd e)) (map_set k x m) = true.
Proof.
  intros Hx. induction m as [|[k1 v1] m IH]; intros H; simpl in *.
  - now rewrite Hx.
  - apply andb_true_iff in H. destruct H as [H1 Hm].
    destruct (key_eqb k k1); simpl; rewrite ?Hx, ?H1; auto.
Qed.

Lemma forallb_replace_nth (n : nat) (x : imm) (l : list imm) :
  wf x = true -> forallb wf l = true ->
  forallb wf (replace_nth n x l) = true.
Proof.
  intros Hx. revert n; induction l as [|y l IH]; intros [|n] H; simpl in *;
    auto; apply andb_true_iff in H; destruct H as [Hy Hl].
  - now rewrite Hx.
  - now rewrite Hy, IH.
Qed.

Lemma wf_set (k : key) (x old v : imm) :
  get k v = Val old -> wf v = true -> wf x = true -> wf (set k x v) = true.
Proof.
  destruct v; simpl get; simpl set; try discriminate; intros Hget Hv Hx.
  - rewrite wf_map in *. apply andb_true_iff in Hv. destruct Hv as [Hk Ha].
    now rewrite keys_distinct_set, forallb_wf_set.
  - rewrite wf_list in *.
    destruct (TreeFacts.list_set_found k x old items Hget)
      as (i & _ & _ & Hset).
    rewrite (Hset x items eq_refl). now apply forallb_replace_nth.
Qed.

Lemma wf_get (k : key) (c v : imm) :
  get k v = Val c -> wf v = true -> wf c = true.
Proof.
  destruct v; simpl get; try discriminate; intros Hget Hv.
  - rewrite wf_map in Hv. apply andb_true_iff in Hv. destruct Hv as [_ Ha].
    induction entries as [|[k1 v1] m IH]; simpl in *; [discriminate|].
    apply andb_true_iff in Ha. destruct Ha as [H1 Hm].
    destruct (key_eqb k k1); [now injection Hget as <-|auto].
  - rewrite wf_list in Hv.
    destruct (list_get_Val _ _ _ Hget) as (i & _ & _ & Hn).
    rewrite forallb_forall in Hv. apply Hv. eapply nth_error_In; eauto.
Qed.

Lemma wf_put (p : path) (x : imm) :
  forall v old, getIn_slot v p = Val old -> wf v = true -> wf x = true ->
                wf (TreeFacts.put p x v) = true.
Proof.
  induction p as [|k p IH]; intros v old H Hv Hx; simpl in *; auto.
  destruct (get k v) as [|c] eqn:Hk; [discriminate|].
  eapply wf_set; eauto. eapply IH; eauto. eapply wf_get; eauto.
Qed.

Lemma wf_getIn (p : path) :
  forall v x, getIn_slot v p = Val x -> wf v = true -> wf x = true.
Proof.
  induction p as [|k p IH]; intros v x H Hv; simpl in *.
  - now injection H as <-.
  - destruct (get k v) as [|c] eqn:Hk; [discriminate|].
    eapply IH; eauto. eapply wf_get; eauto.
Qed.

End IsFacts.

(** ** More on commits, undo and redo *)
Section Commits.
Import Immutable Babel ImmutableFacts TreeFacts IsFacts.

Variable generate : js -> string.
Variable parseFloat_toString : imm -> string.

Local Notation addToHistory := (Editor.addToHistory generate parseFloat_toString).
Local Notation prepare := (Editor.prepare parseFloat_toString).
Local Notation run := (Editor.run generate parseFloat_toString).

(** The [value] field of a NumericLiteral [m], normalised. *)
Definition normalised (m : list (key * imm)) : imm :=
  IMap (map_set (KStr "value")
          (IStr (parseFloat_toString (slot_value (map_get (KStr "value") m))))
          m).

Lemma prepare_result (head start : EditorState) :
  prepare head = Some start ->
  selected start = Editor.effective_selection head
  /\ ((ast start = ast head
       /\ (truthy (getIn (ast head) (selected start)) = false
           \/ isNumericLiteral (toJS (getIn (ast head) (selected start)))
              = false))
      \/ exists m,
           getIn_slot (ast head) (selected start) = Val (IMap m)
           /\ isNumericLiteral (toJS (IMap m)) = true
           /\ ast start = put (selected start) (normalised m) (ast head)).
Proof.
  unfold Editor.prepare. intros H.
  destruct (is_collection (ast head)) eqn:Hc; [|discriminate].
  set (sel := Editor.effective_selection head) in *.
  destruct (truthy (getIn (ast head) sel)) eqn:Ht.
  - unfold call_toJS in H.
    destruct (is_collection (getIn (ast head) sel)) eqn:Hnode; [|discriminate].
    destruct (isNumericLiteral (toJS (getIn (ast head) sel))) eqn:Hnum.
    + unfold getIn in Hnode, Hnum.
      destruct (getIn_slot (ast head) sel) as [|x] eqn:Hx; [discriminate|].
      simpl in Hnode, Hnum.
      destruct x as [| | | | |m|]; try discriminate.
      unfold call_updateIn, push, updateIn in H. rewrite Hc in H.
      rewrite (updateInDeep_put sel [KStr "value"]
                 (fun value => Some (Val (IStr (parseFloat_toString value))))
                 (ast head) (IMap m) (normalised m) Hx eq_refl) in H.
      injection H as <-. split; [reflexivity|]. right. exists m. auto.
    + injection H as <-. split; [reflexivity|]. left. auto.
  - injection H as <-. split; [reflexivity|]. left. auto.
Qed.

(** X8: before a commit the tree is touched in one place at most: when
    the selection it works with holds a NumericLiteral, the [value] field of
    that node is normalised and every other field and node is kept;
    otherwise the update function gets the tree of the history head. *)
Theorem prepare_touches_only_the_number (head start : EditorState) :
  prepare head = Some start ->
  (truthy (getIn (ast head) (selected start)) = false
   \/ isNumericLiteral (toJS (getIn (ast head) (selected start))) = false ->
   ast start = ast head)
  /\ (forall m,
        getIn_slot (ast head) (selected start) = Val (IMap m) ->
        isNumericLiteral (toJS (IMap m)) = true ->
        ast start = put (selected start) (normalised m) (ast head)
        /\ getIn_slot (ast start) (selected start) = Val (normalised m)).
Proof.
  intros H. destruct (prepare_result head start H) as [_ [[Heq Hwhy]|(m & Hm & Hnum & Hput)]].
  - split; [auto|]. intros m Hm Hnum. exfalso.
    unfold getIn in Hwhy. rewrite Hm in Hwhy. simpl slot_value in Hwhy.
    destruct Hwhy as [Hf|Hf]; [discriminate|congruence].
  - split.
    + intros [Hf|Hf]; exfalso; unfold getIn in Hf; rewrite Hm in Hf;
        simpl slot_value in Hf; [discriminate|congruence].
    + intros m' Hm' _. rewrite Hm in Hm'. injection Hm' as <-.
      split; [exact Hput|]. rewrite Hput. eapply getIn_slot_put; eauto.
Qed.

Lemma wf_prepare (head start : EditorState) :
  prepare head = Some start -> wf (ast head) = true -> wf (ast start) = true.
Proof.
  intros H Hwf.
  destruct (prepare_result head start H) as [_ [[-> _]|(m & Hm & _ & ->)]];
    [assumption|].
  apply (wf_put _ _ _ _ Hm Hwf). unfold normalised.
  pose proof (wf_getIn _ _ _ Hm Hwf) as Hwm.
  rewrite wf_map in *. apply andb_true_iff in Hwm. destruct Hwm as [Hk Ha].
  now rewrite keys_distinct_set, forallb_wf_set.
Qed.

(** X9: a change of selection alone is a commit of its own: it puts a
    new entry on the history, empties the redo stack, and calls neither the
    generator nor the change callback. *)
Theorem selection_change_is_recorded_silently (changeFn : imm -> path -> path)
    (e : editor) (head start : EditorState) :
  hd_error (history e) = Some head ->
  wf (ast head) = true ->
  prepare head = Some start ->
  path_is (selected start) (changeFn (ast start) (selected start)) = false ->
  Editor.changeSelected generate parseFloat_toString changeFn e
  = Some (mkEditor []
            (firstn Editor.MAX_HISTORY_LENGTH
               (mkEditorState (ast start)
                  (changeFn (ast start) (selected start)) :: history e))
            (showKeymap e)
            (mkEditorState (ast start) (changeFn (ast start) (selected start)))
            (effects e)).
Proof.
  intros Hh Hwf Hp Hsel.
  unfold Editor.changeSelected.
  rewrite (addToHistory_unfold generate parseFloat_toString _ e head start
             (Some (mkUpdate (Some (ast start))
                      (Some (changeFn (ast start) (selected start)))))
             Hh Hp eq_refl).
  cbn [Editor.merge new_ast new_selected ast selected].
  rewrite (imm_is_refl _ (wf_prepare head start Hp Hwf)), Hsel.
  cbn [negb andb]. rewrite andb_false_r, app_nil_r. reflexivity.
Qed.

(** X10: with two entries or more on the history, [redo()] right after
    [undo()] gives back both stacks as they were. *)
Theorem redo_after_undo_restores_the_stacks (fut : list EditorState)
    (x y : EditorState) (l : list EditorState) (k : bool) (ctx : EditorState)
    (eff : list effect) :
  exists e1,
    Editor.undo (mkEditor fut (x :: y :: l) k ctx eff) = Some e1
    /\ history e1 = y :: l
    /\ future e1 = x :: fut
    /\ Editor.redo e1 = mkEditor fut (x :: y :: l) k x eff.
Proof.
  rewrite undo_two_entries. eexists. split; [reflexivity|]. repeat split.
Qed.

(** X11: with an entry on the redo stack, [undo()] right after [redo()]
    gives back both stacks as they were. *)
Theorem undo_after_redo_restores_the_stacks (next : EditorState)
    (fut : list EditorState) (x : EditorState) (l : list EditorState)
    (k : bool) (ctx : EditorState) (eff : list effect) :
  Editor.redo (mkEditor (next :: fut) (x :: l) k ctx eff)
  = mkEditor fut (next :: x :: l) k next eff
  /\ Editor.undo (Editor.redo (mkEditor (next :: fut) (x :: l) k ctx eff))
     = Some (mkEditor (next :: fut) (x :: l) k x eff).
Proof.
  split; [reflexivity|].
  change (Editor.redo (mkEditor (next :: fut) (x :: l) k ctx eff))
    with (mkEditor fut (next :: x :: l) k next eff).
  apply undo_two_entries.
Qed.

(** X12: however the component is driven from its initial state, by
    commits, undos and redos, there is always a current state: the history
    never becomes empty. *)
Theorem there_is_always_a_current_state (parsed : imm) (k : bool)
    (cs : list Editor.call) (e : editor) :
  run cs (Editor.initial parsed k) = Some e ->
  exists current rest,
    history e = current :: rest
    /\ Editor.getCurrentEditorState e = Some current.
Proof.
  intros H.
  assert (Hne : history e <> []).
  { apply (history_never_empty generate parseFloat_toString cs
             (Editor.initial parsed k) e); [discriminate|exact H]. }
  unfold Editor.getCurrentEditorState.
  destruct (history e) as [|current rest]; [contradiction|].
  exists current, rest. auto.
Qed.

(** X13: a commit either leaves the history as it is or leaves at most
    [MAX_HISTORY_LENGTH] entries and an empty redo stack. *)
Theorem a_commit_records_within_the_cap (f : updateFn) (e e' : editor) :
  addToHistory f e = Some e' ->
  (history e' = history e /\ future e' = future e)
  \/ ((List.length (history e') <= Editor.MAX_HISTORY_LENGTH)%nat
      /\ future e' = []
      /\ hd_error (history e') = Some (contextValue e')).
Proof.
  intros H.
  destruct (addToHistory_Some generate parseFloat_toString f e e' H)
    as (head & start & result & Hh & Hp & Hf).
  rewrite (addToHistory_unfold generate parseFloat_toString f e _ _ _ Hh Hp Hf)
    in H.
  cbv zeta in H.
  match type of H with
  | match ?c with _ => _ end = _ => destruct c as [notified|]
  end; [|discriminate].
  destruct (path_is _ _ && _); apply Some_eq in H; subst e'.
  - left. auto.
  - right. cbn [history future contextValue].
    split; [rewrite length_firstn; apply Nat.le_min_l|]. auto.
Qed.

(** X14: after tree-changing commits the history holds the states they
    pushed, the most recent first, then the entries that were there, cut at
    [MAX_HISTORY_LENGTH]; after a hundred of them or more it holds exactly
    the hundred most recent states. *)
Theorem commits_stack_the_most_recent_states (e e' : editor)
    (states : list EditorState) :
  committed generate parseFloat_toString e states e' ->
  states <> [] ->
  history e' = firstn Editor.MAX_HISTORY_LENGTH (states ++ history e)
  /\ future e' = []
  /\ ((Editor.MAX_HISTORY_LENGTH <= List.length states)%nat ->
      history e' = firstn Editor.MAX_HISTORY_LENGTH states
      /\ List.length (history e') = Editor.MAX_HISTORY_LENGTH).
Proof.
  intros Hc Hne.
  destruct (commits_keep_most_recent generate parseFloat_toString e e' states Hc)
    as [H|[Hnil _]]; [|contradiction].
  split; [exact H|]. split.
  - destruct Hc as [|states e1 e2 f head start result Hc Hh Hp Hf Hast Hadd];
      [contradiction|].
    now destruct (commit_records_on_top generate parseFloat_toString
                    f e1 e2 head start result Hh Hp Hf Hast Hadd) as (_ & ? & _).
  - intros Hlen.
    exact (hundred_commits_fill_history generate parseFloat_toString
             e e' states Hc Hlen).
Qed.

(** X15: the preparation of a commit does not throw when the tree is a
    collection and the selection it works with holds nothing or a node (a
    Map or List, not a bare string, number or [true]). *)
Theorem preparation_succeeds_on_nodes (head : EditorState) :
  is_collection (ast head) = true ->
  (truthy (getIn (ast head) (Editor.effective_selection head)) = true ->
   is_collection (getIn (ast head) (Editor.effective_selection head)) = true) ->
  exists start,
    prepare head = Some start
    /\ selected start = Editor.effective_selection head.
Proof.
  intros Hc Hnode.
  destruct (prepare_succeeds parseFloat_toString head Hc Hnode) as (start & Hp).
  exists start. split; [exact Hp|].
  now destruct (prepare_result head start Hp).
Qed.

End Commits.

(** ** Replacing and editing the selected node *)
Section Edits.
Import Immutable Babel ImmutableFacts TreeFacts.

(** Induction on plain values, with the hypothesis for every field and
    item. *)
Definition js_nested_ind (P : js -> Prop)
    (Hundef : P JUndef) (Hnull : P JNull)
    (Hbool : forall b, P (JBool b)) (Hnum : forall n, P (JNum n))
    (Hstr : forall s, P (JStr s))
    (Hobj : forall fs, Forall (fun f => P (snd f)) fs -> P (JObj fs))
    (Harr : forall xs, Forall P xs -> P (JArr xs)) : forall v, P v :=
  fix F (v : js) : P v :=
    match v with
    | JUndef => Hundef
    | JNull => Hnull
    | JBool b => Hbool b
    | JNum n => Hnum n
    | JStr s => Hstr s
    | JObj fs =>
        Hobj fs
          ((fix G (fs : list (string * js)) : Forall (fun f => P (snd f)) fs :=
              match fs with
              | [] => Forall_nil _
              | f :: fs' => Forall_cons f (F (snd f)) (G fs')
              end) fs)
    | JArr xs =>
        Harr xs
          ((fix G (xs : list js) : Forall P xs :=
              match xs with
              | [] => Forall_nil _
              | x :: xs' => Forall_cons x (F x) (G xs')
              end) xs)
    end.

(** A plain value that went through [Immutable.fromJS] comes back from
    [toJS()] as it was. *)
Lemma toJS_fromJS (v : js) : toJS (fromJS v) = v.
Proof.
  induction v as [| | b | n | s | fs IH | xs IH] using js_nested_ind;
    try reflexivity.
  - cbn [fromJS toJS]. f_equal.
    induction fs as [|[k x] fs IHfs]; [reflexivity|].
    inversion IH as [|? ? Hx Hfs]; subst. cbn [snd] in Hx.
    cbn [key_to_string]. rewrite Hx. f_equal. exact (IHfs Hfs).
  - cbn [fromJS toJS]. f_equal.
    induction xs as [|x xs IHxs]; [reflexivity|].
    inversion IH as [|? ? Hx Hxs]; subst.
    rewrite Hx. f_equal. exact (IHxs Hxs).
Qed.

(** X16: [replace] puts the given node in the place of the selected one
    and changes nothing else in the tree; the new selection is the old one
    followed by the sub-selection; read back with [toJS()], the node at the
    old selection is the node given. *)
Theorem replace_puts_the_node_at_the_selection (node : js)
    (subSelected : path) (ast : imm) (selected : path) (old : imm) :
  getIn_slot ast selected = Val old ->
  is_collection ast = true ->
  Editor.replace_fn node subSelected ast selected
  = Some (Some (mkUpdate (Some (put selected (fromJS node) ast))
                  (Some (selected ++ subSelected))))
  /\ toJS (getIn (put selected (fromJS node) ast) selected) = node.
Proof.
  intros Hold Hast. split.
  - unfold Editor.replace_fn, call_updateIn. rewrite Hast.
    now rewrite (updateIn_put ast selected _ old (fromJS node) Hold eq_refl).
  - unfold getIn. rewrite (getIn_slot_put selected (fromJS node) ast old Hold).
    apply toJS_fromJS.
Qed.

(** The field [handleChange] writes to. *)
Definition text_field (selected : path) : key :=
  KStr (if last_is "id" selected then "name" else "value").

(** X17: text typed into the selected leaf is stored as a string in its
    [value] field, or in its [name] field when the selection ends in [id];
    the other fields of the leaf and the rest of the tree are kept, and the
    selection stays. *)
Theorem handleChange_stores_the_text (value : string) (ast : imm)
    (selected : path) (m : list (key * imm)) :
  getIn_slot ast selected = Val (IMap m) ->
  Editor.handleChange_fn value ast selected
  = Some (Some (mkUpdate
       (Some (put selected
                (IMap (map_set (text_field selected) (IStr value) m)) ast))
       None))
  /\ getIn (put selected (IMap (map_set (text_field selected) (IStr value) m))
              ast)
       (selected ++ [text_field selected]) = IStr value.
Proof.
  intros Hm.
  assert (Hast : is_collection ast = true)
    by (apply (getIn_slot_collection _ _ _ Hm); reflexivity).
  split.
  - unfold Editor.handleChange_fn, call_setIn, setIn, updateIn, push.
    rewrite Hast. fold (text_field selected).
    now rewrite (updateInDeep_put selected [text_field selected]
                   (fun _ => Some (Val (IStr value))) ast (IMap m)
                   (IMap (map_set (text_field selected) (IStr value) m))
                   Hm eq_refl).
  - unfold getIn. rewrite getIn_slot_app.
    rewrite (getIn_slot_put selected _ ast _ Hm).
    cbn [getIn_slot get]. now rewrite map_get_set_same.
Qed.

(** X18: [updateValue] applies the function to what the [value] field of
    the selected node holds ([undefined] when it has none) and stores the
    result there; the other fields and the rest of the tree are kept. *)
Theorem updateValue_rewrites_the_value_field (g : imm -> imm) (ast : imm)
    (selected : path) (m : list (key * imm)) :
  getIn_slot ast selected = Val (IMap m) ->
  g (slot_value (map_get (KStr "value") m)) <> IUndef ->
  Editor.updateValue_fn g ast selected
  = Some (Some (mkUpdate
       (Some (put selected
                (IMap (map_set (KStr "value")
                         (g (slot_value (map_get (KStr "value") m))) m)) ast))
       None)).
Proof.
  intros Hm Hdef.
  assert (Hast : is_collection ast = true)
    by (apply (getIn_slot_collection _ _ _ Hm); reflexivity).
  unfold Editor.updateValue_fn, call_updateIn, updateIn, push. rewrite Hast.
  rewrite (updateInDeep_put selected [KStr "value"]
             (fun value => Some (Val (g value))) ast (IMap m)
             (IMap (map_set (KStr "value")
                      (g (slot_value (map_get (KStr "value") m))) m)) Hm);
    [reflexivity|].
  cbn [updateInDeep is_collection get].
  destruct (g (slot_value (map_get (KStr "value") m))) eqn:Hg;
    try reflexivity.
  contradiction.
Qed.

End Edits.

(** ** Where an insertion goes *)
Section Inserting.
Import Immutable Babel ImmutableFacts TreeFacts.

Lemma closest_of_object (ast : imm) (selected : path) :
  isObjectExpression (toJS (getIn ast selected)) = true ->
  is_collection ast = true ->
  Editor.getClosestCollectionPath ast selected
  = Some (selected ++ [KStr "properties"]).
Proof.
  intros Hobj Hast.
  unfold Editor.getClosestCollectionPath, call_getIn, call_toJS, push.
  rewrite Hast, (is_node_toJS_collection _ _ Hobj).
  unfold isObjectExpression in *. now rewrite Hobj.
Qed.

Lemma closest_of_array (ast : imm) (selected : path) :
  isArrayExpression (toJS (getIn ast selected)) = true ->
  is_collection ast = true ->
  Editor.getClosestCollectionPath ast selected
  = Some (selected ++ [KStr "elements"]).
Proof.
  intros Harr Hast.
  unfold Editor.getClosestCollectionPath, call_getIn, call_toJS, push.
  rewrite Hast, (is_node_toJS_collection _ _ Harr).
  assert (Hobj : isObjectExpression (toJS (getIn ast selected)) = false)
    by (apply (is_node_one_type _ _ _ Harr); reflexivity).
  rewrite Hobj. unfold isArrayExpression in *. now rewrite Harr.
Qed.

(** X19: with an object or an array selected, [insert] puts the new node
    at the head of its [properties] or [elements]: wrapped in a property
    with the empty string as key, and with the selection on that key, in an
    object; as it is, and selected, in an array.  Nothing else in the tree
    changes. *)
Theorem insert_into_the_selected_collection (node : js) (ast : imm)
    (selected : path) (items : list imm) :
  last_is "end" selected = false ->
  let selectedNode := toJS (getIn ast selected) in
  (isObjectExpression selectedNode = true ->
   getIn_slot ast (selected ++ [KStr "properties"]) = Val (IList items) ->
   Editor.insert_fn node ast selected
   = Some (Some (mkUpdate
        (Some (put (selected ++ [KStr "properties"])
                 (IList (fromJS (objectProperty (stringLiteral "") node)
                         :: items)) ast))
        (Some (selected ++ [KStr "properties"; KNum 0; KStr "key"])))))
  /\ (isArrayExpression selectedNode = true ->
      getIn_slot ast (selected ++ [KStr "elements"]) = Val (IList items) ->
      Editor.insert_fn node ast selected
      = Some (Some (mkUpdate
           (Some (put (selected ++ [KStr "elements"])
                    (IList (fromJS node :: items)) ast))
           (Some (selected ++ [KStr "elements"; KNum 0]))))).
Proof.
  intros Hend selectedNode. split; intros Hkind Hitems.
  - assert (Hast : is_collection ast = true)
      by (apply (getIn_slot_collection _ _ _ Hitems); reflexivity).
    assert (Harr : isArrayExpression selectedNode = false)
      by (apply (is_node_one_type _ _ _ Hkind); reflexivity).
    pose proof (insert_fn_result node ast selected
                  (selected ++ [KStr "properties"]) items 0) as H.
    cbv zeta in H. unfold butLast in H. rewrite removelast_last in H.
    fold selectedNode in H. rewrite Hend, Harr, Hkind in H.
    rewrite H; auto.
    + now rewrite <- !app_assoc.
    + now apply closest_of_object.
    + now apply insert_index_in_selected_collection.
    + unfold size. lia.
  - assert (Hast : is_collection ast = true)
      by (apply (getIn_slot_collection _ _ _ Hitems); reflexivity).
    pose proof (insert_fn_result node ast selected
                  (selected ++ [KStr "elements"]) items 0) as H.
    cbv zeta in H. unfold butLast in H. rewrite removelast_last in H.
    fold selectedNode in H. rewrite Hend, Hkind in H.
    rewrite H; auto.
    + now rewrite <- !app_assoc.
    + now apply closest_of_array.
    + now apply insert_index_in_selected_collection.
    + unfold size. lia.
Qed.


End Inserting.

(** ** The editing operations on sample documents *)
Module Samples.
Import Immutable Babel.

(** The elements of [[7, 8]] and the path of their list. *)
Definition elements : path := Examples.body0 ++ [KStr "elements"].
Definition seven : imm := fromJS (numericLiteral 7).
Definition eight : imm := fromJS (numericLiteral 8).
Definition first_element : path := elements ++ [KNum 0].

(** [[8]], [[8, 7]], [[7, null, 8]] and [[null, 8]] as whole documents. *)
Definition only_eight : imm := Examples.document [arrayExpression [numericLiteral 8]].



Definition null_eight : imm :=
  Examples.document [arrayExpression [nullLiteral; numericLiteral 8]].

(** The document [5] with the number selected, and what a commit on it
    works with. *)
Definition on_five : EditorState := mkEditorState Examples.five Examples.body0.

Definition on_five_prepared : EditorState :=
  match Examples.prepare on_five with
  | Some s => s
  | None => on_five
  end.

(** [{}] with the object selected. *)
Definition on_object : EditorState :=
  mkEditorState Examples.empty_object Examples.body0.

(** A run from the initial state on [{}]: an undo, a redo and an INSERT. *)
Definition calls : list Editor.call :=
  [Editor.Undo; Editor.Redo; Editor.Commit (Editor.insert_fn nullLiteral)].

Definition after_calls : editor :=
  match Editor.run Examples.generate Examples.parseFloat_toString calls
          (Editor.initial Examples.empty_object true) with
  | Some e => e
  | None => Editor.initial Examples.empty_object true
  end.

End Samples.

Ltac by_evaluation :=
  solve [reflexivity | lia | vm_compute; congruence
        | vm_compute; split; congruence].

(** DELETE on the 7 of [[7, 8]] leaves [[8]]. *)
Lemma deleteSelected_removes_the_element_witness :
  Editor.deleteSelected_fn Examples.navigate Examples.two_numbers
    Samples.first_element
  = Some (Some (mkUpdate (Some Samples.only_eight)
                  (Some Samples.first_element)))
  /\ Immutable.getIn_slot Samples.only_eight Samples.elements
     = Val (IList [Samples.eight]).
Proof.
  apply (deleteSelected_removes_the_element Examples.navigate
           Examples.two_numbers Samples.elements []
           [Samples.seven; Samples.eight] 0);
    by_evaluation.
Defined.

(** DELETE with nothing selected on the document [5]. *)
Lemma deleteSelected_at_the_root_witness :
  Editor.deleteSelected_fn Examples.navigate Examples.five []
  = Some (Some (mkUpdate (Some (Immutable.fromJS Babel.nullLiteral))
                  (Some []))).
Proof.
  apply (deleteSelected_at_the_root Examples.navigate Examples.five []);
    [reflexivity | left; reflexivity].
Defined.

(** INSERT after the 7 of [[7, 8]], then DELETE. *)
Lemma delete_after_insert_witness :
  exists inserted selected',
    Editor.insert_fn Babel.nullLiteral Examples.two_numbers
      Samples.first_element
    = Some (Some (mkUpdate (Some inserted) (Some selected')))
    /\ Editor.deleteSelected_fn Examples.navigate inserted selected'
       = Some (Some (mkUpdate (Some Examples.two_numbers)
                       (Some (Examples.navigate DOWN Examples.two_numbers
                                (Examples.navigate UP inserted selected'))))).
Proof.
  apply (delete_after_insert_restores_the_tree Examples.navigate
           Babel.nullLiteral Examples.two_numbers Samples.first_element
           Samples.elements [Samples.seven; Samples.eight] 1);
    by_evaluation.
Defined.




(** The collection of the 7 of [[7, 8]] is the [elements] of the array. *)
Lemma getClosestCollectionPath_shape_witness :
  exists pre k post,
    Samples.first_element = pre ++ k :: post
    /\ Samples.elements = pre ++ [k]
    /\ Editor.is_collection_key k = true.
Proof.
  destruct (getClosestCollectionPath_shape Examples.two_numbers
              Samples.first_element Samples.elements eq_refl)
    as (node & Hnode & _ & [[Hobj _]|[(_ & Harr & _)|(_ & _ & [[Hnil _]|H])]]).
  - rewrite <- Hnode in Hobj. vm_compute in Hobj. discriminate.
  - rewrite <- Hnode in Harr. vm_compute in Harr. discriminate.
  - discriminate.
  - destruct H as (pre & k & post & Hsel & Hcp & Hk & _).
    exists pre, k, post. auto.
Defined.

(** A commit on the document [5], the number selected, works on the same
    document with the value turned into the string ["5"]. *)
Lemma prepare_touches_only_the_number_witness :
  ast Samples.on_five_prepared
  = Immutable.fromJS
      (JObj [("type", JStr "File");
             ("program",
              JObj [("type", JStr "Program");
                    ("body", JArr [JObj [("type", JStr "NumericLiteral");
                                         ("value", JStr "5")]])])]).
Proof.
  destruct (prepare_touches_only_the_number Examples.parseFloat_toString
              Samples.on_five Samples.on_five_prepared) as [_ H].
  - vm_compute. reflexivity.
  - destruct (H [(KStr "type", IStr "NumericLiteral"); (KStr "value", INum 5)])
      as [Hput _]; [reflexivity | reflexivity |].
    rewrite Hput. reflexivity.
Defined.

(** Selecting the whole document on [{}]. *)
Lemma selection_change_witness :
  Editor.handleSelect Examples.generate Examples.parseFloat_toString []
    Examples.on_empty_object
  = Some (mkEditor []
            [mkEditorState Examples.empty_object []; Samples.on_object]
            true (mkEditorState Examples.empty_object []) []).
Proof.
  apply (selection_change_is_recorded_silently Examples.generate
           Examples.parseFloat_toString (fun _ _ => [])
           Examples.on_empty_object Samples.on_object Samples.on_object);
    reflexivity.
Defined.

(** After an undo, a redo and an INSERT on a fresh component there is a
    current state. *)
Lemma current_state_witness :
  exists current rest,
    history Samples.after_calls = current :: rest
    /\ Editor.getCurrentEditorState Samples.after_calls = Some current.
Proof.
  apply (there_is_always_a_current_state Examples.generate
           Examples.parseFloat_toString Examples.empty_object true
           Samples.calls Samples.after_calls).
  vm_compute. reflexivity.
Defined.

(** INSERT on [{}]: two entries on the history, none to redo. *)
Lemma commit_within_the_cap_witness :
  (List.length (history Examples.after_insert)
   <= Editor.MAX_HISTORY_LENGTH)%nat
  /\ future Examples.after_insert = []
  /\ hd_error (history Examples.after_insert)
     = Some (contextValue Examples.after_insert).
Proof.
  destruct (a_commit_records_within_the_cap Examples.generate
              Examples.parseFloat_toString (Editor.insert_fn Babel.nullLiteral)
              Examples.on_empty_object Examples.after_insert)
    as [[Hsame _]|H].
  - vm_compute. reflexivity.
  - vm_compute in Hsame. discriminate.
  - exact H.
Defined.

(** INSERT on [{}] puts the new state on top of the initial one. *)
Lemma commits_stack_witness :
  history Examples.after_insert
  = firstn Editor.MAX_HISTORY_LENGTH
      ([contextValue Examples.after_insert]
       ++ history Examples.on_empty_object)
  /\ future Examples.after_insert = [].
Proof.
  destruct (commits_stack_the_most_recent_states Examples.generate
              Examples.parseFloat_toString Examples.on_empty_object
              Examples.after_insert [contextValue Examples.after_insert])
    as (Hh & Hf & _).
  - apply (committed_more Examples.generate Examples.parseFloat_toString
             Examples.on_empty_object [] Examples.on_empty_object
             Examples.after_insert (Editor.insert_fn Babel.nullLiteral)
             Samples.on_object Samples.on_object
             (Some (mkUpdate (Some (ast (contextValue Examples.after_insert)))
                      (Some (selected (contextValue Examples.after_insert))))));
      try (vm_compute; reflexivity).
    apply committed_none.
  - discriminate.
  - split; assumption.
Defined.

(** The preparation of a commit on the document [5]. *)
Lemma preparation_succeeds_witness :
  exists start,
    Examples.prepare Samples.on_five = Some start
    /\ selected start = Examples.body0.
Proof.
  apply (preparation_succeeds_on_nodes Examples.parseFloat_toString
           Samples.on_five); [reflexivity|].
  intros _. reflexivity.
Defined.

(** TO_NULL on the 7 of [[7, 8]] gives [[null, 8]]. *)
Lemma replace_witness :
  Editor.replace_fn Babel.nullLiteral [] Examples.two_numbers
    Samples.first_element
  = Some (Some (mkUpdate (Some Samples.null_eight)
                  (Some (Samples.first_element ++ []))))
  /\ Immutable.toJS (Immutable.getIn Samples.null_eight Samples.first_element)
     = Babel.nullLiteral.
Proof.
  apply (replace_puts_the_node_at_the_selection Babel.nullLiteral []
           Examples.two_numbers Samples.first_element Samples.seven);
    reflexivity.
Defined.

(** Typing [9] into the 7 of [[7, 8]]. *)
Lemma handleChange_witness :
  exists newAST,
    Editor.handleChange_fn "9" Examples.two_numbers Samples.first_element
    = Some (Some (mkUpdate (Some newAST) None))
    /\ Immutable.getIn newAST (Samples.first_element ++ [KStr "value"])
       = IStr "9".
Proof.
  eexists.
  apply (handleChange_stores_the_text "9" Examples.two_numbers
           Samples.first_element
           [(KStr "type", IStr "NumericLiteral"); (KStr "value", INum 7)]).
  reflexivity.
Defined.

(** [updateValue] with a function that gives ["8"], on the 7 of [[7, 8]]. *)
Lemma updateValue_witness :
  exists newAST,
    Editor.updateValue_fn (fun _ => IStr "8") Examples.two_numbers
      Samples.first_element
    = Some (Some (mkUpdate (Some newAST) None))
    /\ Immutable.getIn newAST (Samples.first_element ++ [KStr "value"])
       = IStr "8".
Proof.
  eexists. split.
  - apply (updateValue_rewrites_the_value_field (fun _ => IStr "8")
             Examples.two_numbers Samples.first_element
             [(KStr "type", IStr "NumericLiteral"); (KStr "value", INum 7)]);
      [reflexivity | discriminate].
  - reflexivity.
Defined.

(** INSERT on [{}], the object selected. *)
Lemma insert_into_collection_witness :
  Editor.insert_fn Babel.nullLiteral Examples.empty_object Examples.body0
  = Some (Some (mkUpdate
       (Some (Examples.document
                [Babel.objectExpression [Examples.named "" Babel.nullLiteral]]))
       (Some (Examples.body0 ++ [KStr "properties"; KNum 0; KStr "key"])))).
Proof.
  apply (proj1 (insert_into_the_selected_collection Babel.nullLiteral
                  Examples.empty_object Examples.body0 [] eq_refl));
    reflexivity.
Defined.


(** C5, the claim as worded: the tree and selection an update function
    must hand back for nothing to be recorded are the ones it was given,
    not the ones of the current state.  From the constructor's state on the
    document [5]: select the number, replace it by [null], undo.  The
    current state then holds the number 5, selected, and there is a state
    to redo.  Replacing the number by a NumericLiteral 5 hands back a tree
    equal to the current tree and the current selection; but the commit had
    turned the value into the string ["5"] before, so the tree counts as
    changed: the state is put on the history a second time, the redo stack
    is emptied and the change callback is called. *)
Lemma commit_returning_the_current_state_is_recorded :
  exists e head,
    Editor.run Examples.generate Examples.parseFloat_toString
      [Editor.Commit (Editor.changeSelected_fn (fun _ _ => Examples.body0));
       Editor.Commit (Editor.replace_fn Babel.nullLiteral []);
       Editor.Undo]
      (Editor.initial Examples.five true)
    = Some e
    /\ Editor.getCurrentEditorState e = Some head
    /\ head = Samples.on_five
    /\ List.length (history e) = 2%nat
    /\ List.length (future e) = 1%nat
    /\ (exists start newAST newSelected,
          Examples.prepare head = Some start
          /\ Editor.replace_fn (Babel.numericLiteral 5) []
               (ast start) (selected start)
             = Some (Some (mkUpdate (Some newAST) (Some newSelected)))
          /\ Immutable.imm_is (ast head) newAST = true
          /\ Immutable.path_is (selected head) newSelected = true
          /\ Immutable.imm_is (ast start) newAST = false)
    /\ (exists e',
          Editor.replace Examples.generate Examples.parseFloat_toString
            (Babel.numericLiteral 5) [] e
          = Some e'
          /\ history e' = head :: history e
          /\ future e' = []
          /\ effects e'
             = effects e
               ++ [Generate (Immutable.toJS Examples.five); OnChange "File"]).
Proof.
  eexists. eexists.
  split; [vm_compute; reflexivity|].
  split; [vm_compute; reflexivity|].
  split; [reflexivity|].
  split; [reflexivity|].
  split; [reflexivity|].
  split.
  - eexists. eexists. eexists.
    split; [vm_compute; reflexivity|].
    split; [vm_compute; reflexivity|].
    repeat split; vm_compute; reflexivity.
  - eexists. split; [vm_compute; reflexivity|].
    repeat split; vm_compute; reflexivity.
Qed.
